(** * ThreeStation: configuration, station ordering, file naming, dispersion

    A shallow embedding of [threestation/config.py] and the properties of
    its functions: [group_sta], [get_order], [get_pred_pv], [get_fnm],
    [_check], [_meta] and the module-level normalisation of the wave type and
    of the operator.

    Conventions of the embedding.
    - Python [str] values are byte strings ([string]); [str.upper] and
      [str.lower] act on the ASCII letters, [str.split] on ASCII white space.
    - A Python value that may be [None] is an [option].
    - A raised exception is the left summand of [result]; the exception
      classes are the constructors of [exn].
    - The module globals are read from explicit records, filled as a run
      that reads [param.yml] fills them; code that mutates them ([_meta])
      passes the record along.
    - Calls that leave the module ([my.sys_tool.mkdir], [logger.warning])
      are recorded as events, in order. *)

From Stdlib Require Import ZArith Ascii String.
From stdpp Require Import base decidable option list strings gmap pretty.

Local Open Scope Z_scope.

(** ** Exceptions and results *)

Inductive exn : Type :=
| ValueError (msg : string)
| NotImplementedError (msg : string)
| IndexError (msg : string)
| KeyError (key : string).

Global Instance exn_eq_dec : EqDecision exn.
Proof. solve_decision. Defined.

Definition result (A : Type) : Type := exn + A.
Definition OK {A : Type} (a : A) : result A := inr a.
Definition raise {A : Type} (e : exn) : result A := inl e.

Definition rbind {A B : Type} (m : result A) (k : A -> result B) : result B :=
  match m with
  | inl e => inl e
  | inr a => k a
  end.

Notation "'try!' x <- m ; k" := (rbind m (fun x => k))
  (at level 10, x pattern, m at level 100, k at level 200,
   format "'[v' 'try!'  x  <-  m ; '/' k ']'").

Definition is_ValueError {A : Type} (r : result A) : Prop :=
  exists msg, r = raise (ValueError msg).

(** Effects that leave the module. *)
Inductive event : Type :=
| Mkdir (path : string)
| LogWarning (msg : string).

Global Instance event_eq_dec : EqDecision event.
Proof. solve_decision. Defined.

(** ** Python strings *)

Module Py.

Definition is_lower (c : ascii) : bool :=
  (97 <=? Z.of_N (N_of_ascii c)) && (Z.of_N (N_of_ascii c) <=? 122).
Definition is_upper (c : ascii) : bool :=
  (65 <=? Z.of_N (N_of_ascii c)) && (Z.of_N (N_of_ascii c) <=? 90).

Definition upper_char (c : ascii) : ascii :=
  if is_lower c then ascii_of_N (N_of_ascii c - 32) else c.
Definition lower_char (c : ascii) : ascii :=
  if is_upper c then ascii_of_N (N_of_ascii c + 32) else c.

Fixpoint smap (f : ascii -> ascii) (s : string) : string :=
  match s with
  | EmptyString => EmptyString
  | String c r => String (f c) (smap f r)
  end.

(** [s.upper()], [s.lower()] *)
Definition upper (s : string) : string := smap upper_char s.
Definition lower (s : string) : string := smap lower_char s.

(** [str(x)] inside an f-string, for a value that may be [None]. *)
Definition str (x : option string) : string :=
  match x with
  | Some s => s
  | None => "None"
  end.

(** [repr(x)], as it appears in the message of [list.index]; quotes and
    backslashes inside [x] are not escaped. *)
Class Repr (A : Type) : Type := repr : A -> string.
Global Instance repr_string : Repr string := fun s => "'" +:+ s +:+ "'".
Global Instance repr_option : Repr (option string) := fun o =>
  match o with
  | Some s => repr s
  | None => "None"
  end.

(** [x in lst] for a list of strings *)
Definition str_in (x : string) (lst : list string) : bool :=
  bool_decide (x ∈ lst).

(** [sub in s] for strings *)
Fixpoint contains (sub s : string) : bool :=
  String.prefix sub s ||
  match s with
  | EmptyString => false
  | String _ r => contains sub r
  end.

(** [sep.join(parts)] *)
Fixpoint str_join (sep : string) (parts : list string) : string :=
  match parts with
  | [] => ""
  | [x] => x
  | x :: rest => x +:+ sep +:+ str_join sep rest
  end.

(** White space of [str.split()] among the ASCII characters. *)
Definition is_space (c : ascii) : bool :=
  let n := Z.of_N (N_of_ascii c) in
  ((9 <=? n) && (n <=? 13)) || ((28 <=? n) && (n <=? 32)).

(** [s.split()]: the maximal runs of characters that are not white space.
    [cur] is the run being read, reversed. *)
Fixpoint split_go (cur : option string) (s : string) : list string :=
  match s with
  | EmptyString => option_list (String.rev <$> cur)
  | String c r =>
      if is_space c
      then option_list (String.rev <$> cur) ++ split_go None r
      else split_go (Some (String c (default "" cur))) r
  end.
Definition split (s : string) : list string := split_go None s.

(** [lst.index(x)]: the position of the first occurrence. *)
Section Index.
Context {A : Type} `{EqDecision A} `{Repr A}.

Fixpoint find_index (x : A) (lst : list A) : option nat :=
  match lst with
  | [] => None
  | y :: rest =>
      if decide (y = x) then Some 0%nat
      else S <$> find_index x rest
  end.

Definition index (lst : list A) (x : A) : result nat :=
  match find_index x lst with
  | Some i => OK i
  | None => raise (ValueError (repr x +:+ " is not in list"))
  end.
End Index.

(** [lst[k]] for a non-negative or negative index [k]. *)
Definition getitem {A : Type} (lst : list A) (k : Z) : result A :=
  let i := if k <? 0 then k + Z.of_nat (length lst) else k in
  if i <? 0 then raise (IndexError "list index out of range")
  else match lst !! Z.to_nat i with
       | Some x => OK x
       | None => raise (IndexError "list index out of range")
       end.

End Py.

(** ** [os.path] (posixpath) *)

Module PosixPath.

Definition sep : ascii := "/"%char.

Definition startswith_sep (s : string) : bool :=
  match s with
  | String c _ => bool_decide (c = sep)
  | EmptyString => false
  end.

Fixpoint endswith_sep (s : string) : bool :=
  match s with
  | EmptyString => false
  | String c EmptyString => bool_decide (c = sep)
  | String _ r => endswith_sep r
  end.

(** One round of the loop of [join]: [path] so far, next component [b]. *)
Definition join_step (path b : string) : string :=
  if startswith_sep b then b
  else if bool_decide (path = "") || endswith_sep path then path +:+ b
  else path +:+ "/" +:+ b.

(** [join(a, *p)] *)
Definition join (a : string) (p : list string) : string :=
  fold_left join_step p a.

(** [p.rfind(sep)]: [-1] when there is none. [i] is the position of the
    head of [s], [last] the last position seen so far. *)
Fixpoint rfind_go (s : string) (i last : Z) : Z :=
  match s with
  | EmptyString => last
  | String c r => rfind_go r (i + 1) (if bool_decide (c = sep) then i else last)
  end.
Definition rfind_sep (s : string) : Z := rfind_go s 0 (-1).

(** [s[i:]] and [s[:i]] for [0 <= i] *)
Fixpoint drop (n : nat) (s : string) : string :=
  match n, s with
  | O, _ => s
  | S _, EmptyString => EmptyString
  | S n', String _ r => drop n' r
  end.
Fixpoint take (n : nat) (s : string) : string :=
  match n, s with
  | O, _ => EmptyString
  | S _, EmptyString => EmptyString
  | S n', String c r => String c (take n' r)
  end.

Fixpoint all_sep (s : string) : bool :=
  match s with
  | EmptyString => true
  | String c r => bool_decide (c = sep) && all_sep r
  end.

(** [s.rstrip(sep)] *)
Fixpoint rstrip_sep (s : string) : string :=
  match s with
  | EmptyString => EmptyString
  | String c r =>
      match rstrip_sep r with
      | EmptyString => if bool_decide (c = sep) then EmptyString else String c EmptyString
      | r' => String c r'
      end
  end.

Definition basename (p : string) : string :=
  let i := rfind_sep p + 1 in
  drop (Z.to_nat i) p.

Definition dirname (p : string) : string :=
  let i := rfind_sep p + 1 in
  let head := take (Z.to_nat i) p in
  if negb (bool_decide (head = "")) && negb (all_sep head)
  then rstrip_sep head
  else head.

End PosixPath.

(** ** [get_order] *)

Section GetOrder.
Context {A : Type} `{EqDecision A} `{Py.Repr A}.

(** The list [[st1, st2]] that the source returns is read by its callers
    as a pair. *)
Definition get_order (lst : list A) (st1 st2 : A) : result (A * A) :=
  try! id1 <- Py.index lst st1;
  try! id2 <- Py.index lst st2;
  if bool_decide (id1 <= id2)%nat
  then OK (st1, st2)
  else OK (st2, st1).

(** [i] is the index of [x] in [lst]: its first occurrence. *)
Definition index_of (lst : list A) (x : A) (i : nat) : Prop :=
  lst !! i = Some x /\ forall j, (j < i)%nat -> lst !! j <> Some x.

End GetOrder.

(** ** [group_sta] *)

Section GroupSta.
Context {L : Type} `{EqDecision L}.

(** [list(set(lnum))]: the distinct labels, in the iteration order of the
    set, which Python leaves to the hash of the labels. *)
Variable set_list : list L -> list L.

(** The [for k, st in enumerate(lst)] loop; [k] is the current index, [g0]
    and [g1] the groups so far. *)
Fixpoint group_loop (lnum num : list L) (k : nat) (lst : list string)
    (g0 g1 : list string) : result (list string * list string) :=
  match lst with
  | [] => OK (g0, g1)
  | st :: rest =>
      try! l <- Py.getitem lnum (Z.of_nat k);
      try! n0 <- Py.getitem num 0;
      if decide (l = n0)
      then group_loop lnum num (S k) rest (g0 ++ [st]) g1
      else group_loop lnum num (S k) rest g0 (g1 ++ [st])
  end.

Definition group_sta (lst : list string) (lnum : list L)
    : result (list string * list string) :=
  let num := set_list lnum in
  if bool_decide (length num ≠ 2%nat)
  then raise (ValueError "# of group != 2.")
  else group_loop lnum num 0 lst [] [].

(** For the statements: the stations of [lst] whose label, at the same
    position of [lnum], is [n0], and the others, in the order of [lst]. *)
Definition with_label (n0 : L) (lst : list string) (lnum : list L) : list string :=
  (filter (fun p => p.2 = n0) (zip lst lnum)).*1.
Definition without_label (n0 : L) (lst : list string) (lnum : list L) : list string :=
  (filter (fun p => ¬ p.2 = n0) (zip lst lnum)).*1.

End GroupSta.

(** ** [get_pred_pv] *)

Section Dispersion.
(** The type of the numbers of a curve. *)
Context {F : Type}.

(** A sequence of numbers is a Python list or a numpy array;
    [np.asarray] turns the first into the second and keeps the second. *)
Inductive pyseq : Type :=
| PyList (l : list F)
| NdArray (l : list F).

Definition seq_data (x : pyseq) : list F :=
  match x with
  | PyList l => l
  | NdArray l => l
  end.

Definition asarray (x : pyseq) : pyseq := NdArray (seq_data x).

(** The globals [get_pred_pv] reads. [PRED_PV] is [None] or a dict from
    a pair key to the tuple (periods, velocities). *)
Record dispersion : Type := {
  PHPRPER : pyseq;
  PHPRVEL : pyseq;
  PRED_PV : option (gmap string (pyseq * pyseq));
}.

(** [if PRED_PV:] *)
Definition truthy_table (t : option (gmap string (pyseq * pyseq))) : bool :=
  match t with
  | None => false
  | Some m => negb (bool_decide (m = ∅))
  end.

(** [x in PRED_PV] for [x] a key or [None] *)
Definition key_in (x : option string) (m : gmap string (pyseq * pyseq)) : bool :=
  match x with
  | Some k => bool_decide (is_Some (m !! k))
  | None => false
  end.

Definition forward_key (n1 s1 n2 s2 : string) : string :=
  Py.str_join "_" [n1; s1; n2; s2].
Definition reversed_key (n1 s1 n2 s2 : string) : string :=
  Py.str_join "_" [n2; s2; n1; s1].

Definition get_pred_pv (D : dispersion) (n1 s1 n2 s2 : string)
    (pair pair_r : option string) : pyseq * pyseq :=
  let per := PHPRPER D in
  let pv := PHPRVEL D in
  match PRED_PV D with
  | Some m =>
      if truthy_table (Some m) then
        let pair_r :=
          match pair with
          | None => Some (reversed_key n1 s1 n2 s2)
          | Some _ => pair_r
          end in
        let pair :=
          match pair with
          | None => Some (forward_key n1 s1 n2 s2)
          | Some _ => pair
          end in
        let chosen :=
          if key_in pair m then pair
          else if key_in pair_r m then pair_r
          else None in
        match chosen ≫= (m !!.) with
        | Some c => (asarray c.1, asarray c.2)
        | None => (per, pv)
        end
      else (asarray per, asarray pv)
  | None => (asarray per, asarray pv)
  end.

End Dispersion.

Arguments pyseq : clear implicits.
Arguments dispersion : clear implicits.

(** ** The parameters [PARAM] *)

Record dir_t : Type := {
  dir_project : string;
  dir_out : string;
  dir_meta : string;
  dir_I2 : string;
  dir_I3 : string;
  dir_I3_rand : string;
}.

Record sfx_t : Type := {
  sfx_I2 : string;
  sfx_source : string;
}.

Record write_t : Type := {
  write_lag : bool;
}.

(** [interferometry_type] is the entry ['type'], which the file of parameters
    may lack ([None]). *)
Record interferometry_t : Type := {
  nlag : Z;
  flip_nlag : bool;
  spz : bool;
  Welch : bool;
  operator : string;
  interferometry_type : option string;
}.

Record misc_t : Type := {
  wavetype : string;
}.

(** [receiver_group] is [PARAM['fstation']['receiver']['group']]; the names
    of the files are left out, their contents are given to [_meta]. *)
Record fstation_t : Type := {
  receiver_group : bool;
}.

Record param : Type := {
  p_dir : dir_t;
  p_sfx : sfx_t;
  p_write : write_t;
  p_interferometry : interferometry_t;
  p_misc : misc_t;
  p_fstation : fstation_t;
}.

(** [DIROUT = join(PARAM['dir']['project'], PARAM['dir']['out'])], as the
    module sets it when it reads the parameters (the branch
    [if not make_doc]); [get_fnm] is modelled for a module so configured. *)
Definition DIROUT (P : param) : string :=
  PosixPath.join (dir_project (p_dir P)) [dir_out (p_dir P)].

(** ** [get_fnm] *)

Inductive fnm : Type :=
| OnePath (p : string)
| PathList (ps : list string).

Global Instance fnm_eq_dec : EqDecision fnm.
Proof. solve_decision. Defined.

(** The branch of [get_fnm] after [src, rec = get_order(...)]. *)
Definition fnm_of_pair (P : param) (kind src rec : string)
    (sta3 lags pre I2 : option string) : list event * result fnm :=
  let join := PosixPath.join in
  if bool_decide (kind = "I2") then
    ([], OK (OnePath (join (dir_project (p_dir P))
       [dir_I2 (p_dir P); src; "COR_" +:+ src +:+ "_" +:+ rec +:+ ".SAC"])))
  else if bool_decide (kind = "I2_LAG_PROC") then
    ([], OK (OnePath (join (DIROUT P)
       [src; Py.str pre +:+ "_COR_" +:+ src +:+ "_" +:+ rec +:+ ".SAC"])))
  else if bool_decide (kind = "C3") then
    ([], OK (OnePath (join (DIROUT P)
       [src; rec;
        Py.str sta3 +:+ "_" +:+ Py.str lags +:+ "_" +:+ src +:+ "_" +:+ rec +:+ ".SAC"])))
  else if bool_decide (kind = "I3") then
    ([], OK (OnePath (join (DIROUT P)
       [dir_I3 (p_dir P); src; "I3_" +:+ src +:+ "_" +:+ rec +:+ ".SAC"])))
  else if bool_decide (kind = "I3_RAND") then
    ([], OK (OnePath (join (DIROUT P)
       [dir_I3_rand (p_dir P); src; rec; "I3_" +:+ src +:+ "_" +:+ rec +:+ ".SAC"])))
  else if bool_decide (kind = "I2_LAG_RAW") then
    let stadir := join (DIROUT P) [src] in
    let made := if write_lag (p_write P) then [Mkdir stadir] else [] in
    if bool_decide (nlag (p_interferometry P) = 2) then
      let plag := join stadir ["P_" +:+ Py.str I2] in
      let nlag := join stadir ["N_" +:+ Py.str I2] in
      (made, OK (PathList [plag; nlag]))
    else
      (made, OK (PathList [join stadir ["S_" +:+ Py.str I2]]))
  else
    ([], raise (ValueError ("Unknow kind of file: " +:+ kind +:+ "."))).

(** [src] and [rec] come out of [get_order] as members of [ALL_STATION], so
    [Py.str] is the identity on them. *)
Definition get_fnm (P : param) (ALL_STATION : list string) (kind : string)
    (sta1 sta2 sta3 lags pre I2 : option string) : list event * result fnm :=
  let kind := Py.upper kind in
  if Py.str_in kind ["I2_PATH"] then
    ([], OK (OnePath (PosixPath.join (DIROUT P)
       [dir_meta (p_dir P); dir_out (p_dir P) +:+ sfx_I2 (p_sfx P)])))
  else if Py.str_in kind ["SOURCE"; "SOURCE-STATION"] then
    ([], OK (OnePath (PosixPath.join (DIROUT P)
       [dir_meta (p_dir P); dir_out (p_dir P) +:+ sfx_source (p_sfx P)])))
  else
    let '(sta2, I2) :=
      match I2 with
      | Some p => (Some (PosixPath.basename (PosixPath.dirname p)),
                   Some (PosixPath.basename p))
      | None => (sta2, I2)
      end in
    match get_order (Some <$> ALL_STATION) sta1 sta2 with
    | inl e => ([], inl e)
    | inr (src, rec) => fnm_of_pair P kind (Py.str src) (Py.str rec) sta3 lags pre I2
    end.

(** The kinds of file named after a pair of stations. *)
Definition pair_kinds : list string :=
  ["I2"; "I2_LAG_PROC"; "C3"; "I3"; "I3_RAND"; "I2_LAG_RAW"].

(** ** Module-level normalisation and [_check] *)

Record flags : Type := {
  USE_CW : bool;
  USE_DW : bool;
  CONV : bool;
  CORR : bool;
}.

(** The module as written, before any parameter is read. *)
Definition flags0 : flags :=
  {| USE_CW := false; USE_DW := false; CONV := false; CORR := false |}.

(** The spellings the module accepts. *)
Definition coda_spellings : list string := ["cw"; "coda"; "coda wave"; "coda-wave"].
Definition direct_spellings : list string := ["dw"; "direct wave"; "direct-wave"].
Definition conv_spellings : list string := ["conv"; "convolution"].
Definition corr_spellings : list string := ["corr"; "correlation"].

(** "Use direct-wave or coda": the pair ([USE_CW], [USE_DW]). *)
Definition normalize_wavetype (P : param) : result (bool * bool) :=
  let w := wavetype (p_misc P) in
  if Py.str_in (Py.lower w) coda_spellings then
    OK (true, false)
  else if Py.str_in (Py.lower w) direct_spellings then
    OK (false, true)
  else raise (ValueError ("Unknown type of signal " +:+ w)).

(** "Use correlation or convolution": the pair ([CONV], [CORR]). The message
    of the last branch reads [PARAM['interferometry']['type']]. *)
Definition normalize_operator (P : param) : result (bool * bool) :=
  let o := operator (p_interferometry P) in
  if Py.str_in (Py.lower o) conv_spellings then
    OK (true, false)
  else if Py.str_in (Py.lower o) corr_spellings then
    OK (false, true)
  else
    match interferometry_type (p_interferometry P) with
    | Some t => raise (ValueError ("Unknown operator " +:+ t))
    | None => raise (KeyError "type")
    end.

Definition normalize (P : param) : result flags :=
  try! (cw, dw) <- normalize_wavetype P;
  try! (conv, corr) <- normalize_operator P;
  OK {| USE_CW := cw; USE_DW := dw; CONV := conv; CORR := corr |}.

(** The last statement of [_check]. *)
Definition check_lag (P : param) : result unit :=
  if bool_decide (nlag (p_interferometry P) = 4)
     && negb (flip_nlag (p_interferometry P))
  then raise (NotImplementedError "4 lags MUST use the symmetric component")
  else OK tt.

Definition _check (P : param) (fl : flags) : list event * result unit :=
  if USE_CW fl then
    if CONV fl then ([], raise (ValueError "NO convolution of coda"))
    else
      let warned :=
        if spz (p_interferometry P)
        then [LogWarning "Using stationary phase zone for coda"]
        else [] in
      (warned, check_lag P)
  else if USE_DW fl then
    if Welch (p_interferometry P)
    then ([], raise (ValueError "NOT use Welch's method for direct-wave"))
    else ([], check_lag P)
  else ([], check_lag P).

(** The three combinations [_check] refuses. Coda is [USE_CW = True]; the
    direct wave is [USE_CW = False] and [USE_DW = True]. *)
Definition coda_conv (fl : flags) : Prop :=
  USE_CW fl = true /\ CONV fl = true.
Definition direct_welch (P : param) (fl : flags) : Prop :=
  USE_CW fl = false /\ USE_DW fl = true /\ Welch (p_interferometry P) = true.
Definition lag4_noflip (P : param) : Prop :=
  nlag (p_interferometry P) = 4 /\ flip_nlag (p_interferometry P) = false.

(** ** [_meta] *)

(** The item assignment [m[kf(r)] = vf(r)] on a dict. *)
Definition assign {R V : Type} (kf : R -> string) (vf : R -> V)
    (m : gmap string V) (r : R) : gmap string V :=
  <[kf r := vf r]> m.

Section Meta.
(** [F]: the numbers [float] returns; [L]: the group labels. *)
Context {F L : Type}.

(** [float(s)]: [ValueError] when [s] is not the text of a number. *)
Variable float : string -> result F.

(** The globals [_meta] writes. *)
Record catalog : Type := {
  STA2NET : gmap string string;
  STNM2LOLA : gmap string (F * F);
  ALL_STATION : list string;
  RECEIVER_STATION : list string;
  RECEIVER_GROUP : option (list L);
  SOURCE_STATION : list string;
}.

(** The globals of the module as written. *)
Definition catalog0 : catalog :=
  {| STA2NET := ∅; STNM2LOLA := ∅; ALL_STATION := [];
     RECEIVER_STATION := []; RECEIVER_GROUP := None; SOURCE_STATION := [] |}.

(** What [_meta] reads: the lines of the station file, and the columns
    [my.fio.rcol] returns for the receiver file and the source file. *)
Record files : Type := {
  station_lines : list string;
  receiver_col0 : list string;
  receiver_col1 : list L;
  source_col0 : list string;
}.

(** Code that writes the globals and may raise: the globals at the raise
    are kept. *)
Definition M (A : Type) : Type := catalog -> catalog * result A.

Definition cret {A : Type} (a : A) : M A := fun c => (c, OK a).
Definition cbind {A B : Type} (m : M A) (k : A -> M B) : M B := fun c =>
  match m c with
  | (c', inl e) => (c', inl e)
  | (c', inr a) => k a c'
  end.
Definition lift {A : Type} (r : result A) : M A := fun c => (c, r).
Definition modify (f : catalog -> catalog) : M unit := fun c => (f c, OK tt).

Notation "'do!' x <- m ; k" := (cbind m (fun x => k))
  (at level 10, x pattern, m at level 100, k at level 200,
   format "'[v' 'do!'  x  <-  m ; '/' k ']'").

Definition set_STNM2LOLA (key : string) (lola : F * F) (c : catalog) : catalog :=
  {| STA2NET := STA2NET c; STNM2LOLA := <[key := lola]> (STNM2LOLA c);
     ALL_STATION := ALL_STATION c; RECEIVER_STATION := RECEIVER_STATION c;
     RECEIVER_GROUP := RECEIVER_GROUP c; SOURCE_STATION := SOURCE_STATION c |}.

Definition set_STA2NET (key net : string) (c : catalog) : catalog :=
  {| STA2NET := <[key := net]> (STA2NET c); STNM2LOLA := STNM2LOLA c;
     ALL_STATION := ALL_STATION c; RECEIVER_STATION := RECEIVER_STATION c;
     RECEIVER_GROUP := RECEIVER_GROUP c; SOURCE_STATION := SOURCE_STATION c |}.

Definition append_ALL_STATION (key : string) (c : catalog) : catalog :=
  {| STA2NET := STA2NET c; STNM2LOLA := STNM2LOLA c;
     ALL_STATION := ALL_STATION c ++ [key];
     RECEIVER_STATION := RECEIVER_STATION c;
     RECEIVER_GROUP := RECEIVER_GROUP c; SOURCE_STATION := SOURCE_STATION c |}.

Definition set_roles (rs : list string) (rg : option (list L))
    (ss : list string) (c : catalog) : catalog :=
  {| STA2NET := STA2NET c; STNM2LOLA := STNM2LOLA c;
     ALL_STATION := ALL_STATION c; RECEIVER_STATION := rs;
     RECEIVER_GROUP := rg; SOURCE_STATION := ss |}.

(** The body of [for line in f]. *)
Definition meta_line (col_net col_sta col_lon col_lat : Z) (line : string)
    : M unit :=
  let lst := Py.split line in
  do! key <- lift (Py.getitem lst col_sta);
  do! lon <- lift (try! x <- Py.getitem lst col_lon; float x);
  do! lat <- lift (try! x <- Py.getitem lst col_lat; float x);
  do! _ <- modify (set_STNM2LOLA key (lon, lat));
  do! net <- lift (Py.getitem lst col_net);
  do! _ <- modify (set_STA2NET key net);
  modify (append_ALL_STATION key).

Fixpoint meta_lines (col_net col_sta col_lon col_lat : Z)
    (lines : list string) : M unit :=
  match lines with
  | [] => cret tt
  | line :: rest =>
      do! _ <- meta_line col_net col_sta col_lon col_lat line;
      meta_lines col_net col_sta col_lon col_lat rest
  end.

Definition _meta (P : param) (fs : files)
    (col_net col_sta col_lon col_lat : Z) : M unit :=
  do! _ <- meta_lines col_net col_sta col_lon col_lat (station_lines fs);
  modify (set_roles
    (receiver_col0 fs)
    (if receiver_group (p_fstation P) then Some (receiver_col1 fs) else None)
    (source_col0 fs)).

(** For the statements: what a line of the station file holds, the
    station, its coordinates and its network, and the globals after such
    a line. *)
Definition parse_line (col_net col_sta col_lon col_lat : Z) (line : string)
    : result (string * (F * F) * string) :=
  let lst := Py.split line in
  try! key <- Py.getitem lst col_sta;
  try! lon <- (try! x <- Py.getitem lst col_lon; float x);
  try! lat <- (try! x <- Py.getitem lst col_lat; float x);
  try! net <- Py.getitem lst col_net;
  OK (key, (lon, lat), net).

Definition parsed (col_net col_sta col_lon col_lat : Z)
    (lines : list string) (recs : list (string * (F * F) * string)) : Prop :=
  Forall2 (fun line r => parse_line col_net col_sta col_lon col_lat line = OK r)
    lines recs.

Definition rec_key (r : string * (F * F) * string) : string := r.1.1.
Definition rec_lola (r : string * (F * F) * string) : F * F := r.1.2.
Definition rec_net (r : string * (F * F) * string) : string := r.2.

Definition store (c : catalog) (r : string * (F * F) * string) : catalog :=
  append_ALL_STATION (rec_key r)
    (set_STA2NET (rec_key r) (rec_net r)
       (set_STNM2LOLA (rec_key r) (rec_lola r) c)).

End Meta.

Arguments catalog : clear implicits.
Arguments files : clear implicits.
Arguments M : clear implicits.

(** ** SAC headers *)

Definition DEF_SHD : Z := -12345.

(** The entries of the dict literal [SHD2KEY], as written; they are what
    [SHD2KEY.items()] yields, in this order. *)
Definition SHD2KEY_items : list (string * string) :=
  [("kuser0", "src_sta"); ("kuser1", "net_rec"); ("kuser2", "src_net");
   ("user0", "nsrc"); ("user1", "nsided"); ("user2", "snr"); ("user3", "dr");
   ("user4", "theta"); ("user5", "min_srdist"); ("user6", "dir_src");
   ("user7", "nsrc_dir1"); ("user8", "nsrc_dir2")].

(** A dict filled entry by entry: [d[k] = v] for each [(k, v)]. *)
Definition dict_of_items (items : list (string * string)) : gmap string string :=
  foldl (assign fst snd) ∅ items.

(** [{v: k for k, v in items}] *)
Definition invert_items (items : list (string * string)) : gmap string string :=
  foldl (assign snd fst) ∅ items.

Definition SHD2KEY : gmap string string := dict_of_items SHD2KEY_items.
Definition KEY2SHD : gmap string string := invert_items SHD2KEY_items.

(** ** [_cp_fparam] *)

(** What [_cp_fparam] does to the file system: [my.sys_tool.mkdir] and
    [shutil.copy]. The file system is the set of the paths that exist. *)
Inductive fs_op : Type :=
| MkdirOp (path : string)
| CopyOp (src dst : string).

Global Instance fs_op_eq_dec : EqDecision fs_op.
Proof. solve_decision. Defined.

(** [exists(path)] *)
Definition path_exists (fs : gset string) (path : string) : bool :=
  bool_decide (path ∈ fs).

(** [join(dir_meta, f'{basename(fparam)}_{n}')] *)
Definition copy_name (dir : string) (fparam : string) (n : nat) : string :=
  PosixPath.join dir [PosixPath.basename fparam +:+ "_" +:+ pretty n].

(** The [while True] loop, for at most [fuel] rounds, from the counter [n]:
    the counter and the name at the [break]. *)
Fixpoint cp_loop (fuel : nat) (fs : gset string) (dir fparam : string)
    (n : nat) : option (nat * string) :=
  match fuel with
  | O => None
  | S fuel' =>
      let fout := copy_name dir fparam n in
      if path_exists fs fout
      then cp_loop fuel' fs dir fparam (S n)
      else Some (n, fout)
  end.

(** [_cp_fparam]: the operations, in order, and the file system after
    them; [None] when [fuel] rounds do not reach the [break]. *)
Definition _cp_fparam (fuel : nat) (P : param) (fparam : string)
    (fs : gset string) : option (list fs_op * gset string) :=
  let dir := PosixPath.join (DIROUT P) [dir_meta (p_dir P)] in
  let fs1 := {[dir]} ∪ fs in
  match cp_loop fuel fs1 dir fparam 0 with
  | Some (_, fout) => Some ([MkdirOp dir; CopyOp fparam fout], {[fout]} ∪ fs1)
  | None => None
  end.

(** [c in s] for a character [c] *)
Fixpoint has_char (c : ascii) (s : string) : bool :=
  match s with
  | EmptyString => false
  | String x r => bool_decide (x = c) || has_char c r
  end.

(** The stations listed in [ALL_STATION] are the stations that have a
    network in [STA2NET], and the stations that have coordinates in
    [STNM2LOLA]. *)
Definition catalog_consistent {F L : Type} (c : catalog F L) : Prop :=
  forall k, (k ∈ ALL_STATION c <-> is_Some (STA2NET c !! k)) /\
            (k ∈ ALL_STATION c <-> is_Some (STNM2LOLA c !! k)).

(** ** Names used in the statements on [get_fnm] *)


(** The path of kind [I2] for the canonical pair [(src, rec)]. *)
Definition I2_path (P : param) (src rec : string) : string :=
  PosixPath.join (dir_project (p_dir P))
    [dir_I2 (p_dir P); src; "COR_" +:+ src +:+ "_" +:+ rec +:+ ".SAC"].


(** ** Data of the examples *)

Module Ex.

(** Curves; integers stand for the periods and the velocities. *)
Definition curveX : pyseq Z * pyseq Z := (NdArray [5; 10], NdArray [31; 33]).
Definition curveY : pyseq Z * pyseq Z := (NdArray [6; 12], NdArray [28; 29]).

Definition disp_none : dispersion Z :=
  {| PHPRPER := PyList [4; 8]; PHPRVEL := PyList [30; 32]; PRED_PV := None |}.

Definition disp_one : dispersion Z :=
  {| PHPRPER := PyList [4; 8]; PHPRVEL := PyList [30; 32];
     PRED_PV := Some {[ "NETA_S1_NETB_S2" := curveX ]} |}.

Definition disp_both : dispersion Z :=
  {| PHPRPER := PyList [4; 8]; PHPRVEL := PyList [30; 32];
     PRED_PV := Some (<[ "NETB_S2_NETA_S1" := curveY ]>
                        {[ "NETA_S1_NETB_S2" := curveX ]}) |}.

(** Parameters of a run. *)
Definition P0 : param :=
  {| p_dir := {| dir_project := "proj"; dir_out := "out"; dir_meta := "meta";
                 dir_I2 := "I2"; dir_I3 := "I3"; dir_I3_rand := "I3_rand" |};
     p_sfx := {| sfx_I2 := "_I2.lst"; sfx_source := "_src.lst" |};
     p_write := {| write_lag := true |};
     p_interferometry :=
       {| nlag := 2; flip_nlag := true; spz := false; Welch := false;
          operator := "corr"; interferometry_type := None |};
     p_misc := {| wavetype := "dw" |};
     p_fstation := {| receiver_group := true |} |}.

(** The same, with symmetric lags only and no lag files written. *)
Definition P1 : param :=
  {| p_dir := p_dir P0; p_sfx := p_sfx P0;
     p_write := {| write_lag := false |};
     p_interferometry :=
       {| nlag := 1; flip_nlag := true; spz := false; Welch := false;
          operator := "corr"; interferometry_type := None |};
     p_misc := p_misc P0; p_fstation := p_fstation P0 |}.

(** Parameters with the given wave type, operator, lag count and flags
    [flip_nlag], [spz], [Welch], and entry ['type']. *)
Definition with_options (w op : string) (n : Z) (flip sp we : bool)
    (ty : option string) : param :=
  {| p_dir := p_dir P0; p_sfx := p_sfx P0; p_write := p_write P0;
     p_interferometry :=
       {| nlag := n; flip_nlag := flip; spz := sp; Welch := we;
          operator := op; interferometry_type := ty |};
     p_misc := {| wavetype := w |}; p_fstation := p_fstation P0 |}.

(** A stand-in for [float]: the text of a number is kept as it is. *)
Definition is_float_char (c : ascii) : bool :=
  bool_decide (c ∈ ["0"; "1"; "2"; "3"; "4"; "5"; "6"; "7"; "8"; "9";
                    "."; "-"; "+"; "e"; "E"]%char).
Fixpoint all_float_chars (s : string) : bool :=
  match s with
  | EmptyString => true
  | String c r => is_float_char c && all_float_chars r
  end.
Definition float_text (s : string) : result string :=
  if negb (bool_decide (s = "")) && all_float_chars s then OK s
  else raise (ValueError ("could not convert string to float: " +:+ Py.repr s)).

(** A station file of one line, and one that names a station twice. *)
Definition one_line : files Z :=
  {| station_lines := ["TA A04D -120.5 47.1"];
     receiver_col0 := ["A04D"]; receiver_col1 := [1]; source_col0 := ["A04D"] |}.

Definition twice : files Z :=
  {| station_lines := ["N1 A 1.0 2.0"; "N2 B 3.0 4.0"; "N3 A 5.0 6.0"];
     receiver_col0 := ["A"; "B"]; receiver_col1 := [1; 2]; source_col0 := ["A"] |}.

Definition stations : list string := ["STA1"; "STA2"; "STA3"; "STA4"].

End Ex.

(** ** Data of the further examples *)

Module Ex2.

(** A station file with a blank second line. *)
Definition blank_line : files Z :=
  {| station_lines := ["N1 A 1.0 2.0"; ""; "N2 B 3.0 4.0"];
     receiver_col0 := ["A"; "B"]; receiver_col1 := [1; 2]; source_col0 := ["A"] |}.

(** A file system that holds two earlier copies of the parameters. *)
Definition two_copies : gset string :=
  {[ "proj/out/meta/param.yml_0"; "proj/out/meta/param.yml_1"; "./param.yml" ]}.

End Ex2.

(** * Properties *)

(** A decidable proposition proved by evaluation. *)
Ltac by_compute :=
  match goal with
  | |- ?P => apply (bool_decide_unpack P); vm_compute; exact I
  end.

(** ** Sanity checks of the primitives *)

Example basename_ex :
  PosixPath.basename "proj/I2/STA1/COR_STA1_STA2.SAC" = "COR_STA1_STA2.SAC".
Proof. reflexivity. Qed.

Example dirname_ex :
  PosixPath.basename (PosixPath.dirname "proj/I2/STA1/COR_STA1_STA2.SAC") = "STA1".
Proof. reflexivity. Qed.

Example join_ex :
  PosixPath.join "proj" ["out/"; "STA1"; "x.SAC"] = "proj/out/STA1/x.SAC".
Proof. reflexivity. Qed.

Example join_abs_ex : PosixPath.join "proj" ["/abs"; "x"] = "/abs/x".
Proof. reflexivity. Qed.

Example split_ex : Py.split "  TA  A04D -120.5	47.1
" = ["TA"; "A04D"; "-120.5"; "47.1"].
Proof. reflexivity. Qed.

Example upper_ex : Py.upper "i2_Lag-raw" = "I2_LAG-RAW".
Proof. reflexivity. Qed.

Example get_order_ex :
  get_order ["A"; "B"; "C"] "C" "A" = OK ("A", "C").
Proof. reflexivity. Qed.

(** ** [list.index] and [get_order] *)

Section GetOrderFacts.
Context {A : Type} `{EqDecision A} `{Py.Repr A}.
Implicit Types (lst : list A) (x : A).

Lemma find_index_Some lst x i :
  Py.find_index x lst = Some i <-> index_of lst x i.
Proof.
  revert i. induction lst as [|y rest IH]; intros i; simpl.
  - split; [discriminate | intros [Hl _]; discriminate].
  - destruct (decide (y = x)) as [->|Hne].
    + split.
      * intros [= <-]. split; [reflexivity | intros j Hj; lia].
      * intros [Hl Hfirst]. destruct i as [|i]; [reflexivity|].
        exfalso. apply (Hfirst 0%nat); [lia | reflexivity].
    + split.
      * intros (i' & Hf & ->)%fmap_Some.
        apply IH in Hf as [Hl Hfirst]. split; [exact Hl|].
        intros [|j] Hj; simpl; [congruence | apply Hfirst; lia].
      * intros [Hl Hfirst]. destruct i as [|i]; simpl in Hl; [congruence|].
        assert (Py.find_index x rest = Some i) as ->; [|reflexivity].
        apply IH. split; [exact Hl|].
        intros j Hj. apply (Hfirst (S j)). lia.
Qed.

Lemma find_index_None lst x : Py.find_index x lst = None <-> x ∉ lst.
Proof.
  induction lst as [|y rest IH]; simpl.
  - split; [intros _; apply not_elem_of_nil | reflexivity].
  - rewrite not_elem_of_cons. destruct (decide (y = x)) as [->|Hne].
    + split; [discriminate | intros [Hx _]; congruence].
    + destruct (Py.find_index x rest); simpl.
      * split; [discriminate | intros [_ Hx]; apply IH in Hx; discriminate].
      * split; [intros _; split; [congruence | apply IH; reflexivity] | reflexivity].
Qed.

Lemma find_index_elem lst x : x ∈ lst -> exists i, Py.find_index x lst = Some i.
Proof.
  intros Hx. destruct (Py.find_index x lst) as [i|] eqn:Hf; [eauto|].
  apply find_index_None in Hf. contradiction.
Qed.

Lemma index_of_inj lst x y i : index_of lst x i -> index_of lst y i -> x = y.
Proof. intros [Hx _] [Hy _]. congruence. Qed.

Lemma index_OK lst x i : index_of lst x i -> Py.index lst x = OK i.
Proof. intros Hi. unfold Py.index. apply find_index_Some in Hi. rewrite Hi. reflexivity. Qed.

Lemma index_absent lst x : x ∉ lst -> is_ValueError (Py.index lst x).
Proof.
  intros Hx. unfold Py.index. apply find_index_None in Hx. rewrite Hx.
  eexists. reflexivity.
Qed.

Lemma get_order_indices lst x y i1 i2 :
  index_of lst x i1 -> index_of lst y i2 ->
  get_order lst x y =
    OK (if bool_decide (i1 <= i2)%nat then (x, y) else (y, x)).
Proof.
  intros H1 H2. unfold get_order.
  rewrite (index_OK _ _ _ H1), (index_OK _ _ _ H2). simpl.
  destruct (bool_decide (i1 <= i2)%nat); reflexivity.
Qed.

Lemma get_order_comm lst x y :
  x ∈ lst -> y ∈ lst -> get_order lst x y = get_order lst y x.
Proof.
  intros [i1 H1]%find_index_elem [i2 H2]%find_index_elem.
  apply find_index_Some in H1, H2.
  rewrite (get_order_indices _ _ _ _ _ H1 H2), (get_order_indices _ _ _ _ _ H2 H1).
  destruct (decide (i1 = i2)) as [->|Hne].
  - rewrite (index_of_inj _ _ _ _ H1 H2). reflexivity.
  - repeat case_bool_decide; try reflexivity; lia.
Qed.

Lemma get_order_absent lst x y :
  x ∉ lst \/ y ∉ lst -> is_ValueError (get_order lst x y).
Proof.
  intros Habs. unfold get_order.
  destruct (Py.find_index x lst) as [i1|] eqn:H1.
  - unfold Py.index at 1. rewrite H1. simpl.
    destruct Habs as [Hx|Hy].
    + apply find_index_None in Hx. congruence.
    + destruct (index_absent _ _ Hy) as [msg ->]. eexists. reflexivity.
  - unfold Py.index at 1. rewrite H1. eexists. reflexivity.
Qed.

Lemma get_order_present lst x y :
  x ∈ lst -> y ∈ lst ->
  exists src rec, get_order lst x y = OK (src, rec) /\ src ∈ lst /\ rec ∈ lst.
Proof.
  intros Hx Hy.
  destruct (find_index_elem _ _ Hx) as [i1 H1], (find_index_elem _ _ Hy) as [i2 H2].
  apply find_index_Some in H1, H2.
  rewrite (get_order_indices _ _ _ _ _ H1 H2).
  destruct (bool_decide (i1 <= i2)%nat); eauto.
Qed.

End GetOrderFacts.

(** C2. For [st1], [st2] in [lst], with [i1] and [i2] their indices (first
    occurrences), [get_order lst st1 st2] is [(st1, st2)] when [i1 <= i2]
    and [(st2, st1)] otherwise; hence the order of the two arguments does
    not matter; and when one of them is not in [lst] the call raises the
    [ValueError] of [list.index]. *)
Theorem get_order_spec {A : Type} `{EqDecision A} `{Py.Repr A}
    (lst : list A) (st1 st2 : A) :
  (forall i1 i2, index_of lst st1 i1 -> index_of lst st2 i2 ->
     get_order lst st1 st2 =
       OK (if bool_decide (i1 <= i2)%nat then (st1, st2) else (st2, st1)))
  /\ (st1 ∈ lst -> st2 ∈ lst ->
      exists r, get_order lst st1 st2 = OK r /\ get_order lst st2 st1 = OK r)
  /\ (st1 ∉ lst \/ st2 ∉ lst -> is_ValueError (get_order lst st1 st2)).
Proof.
  split; [|split].
  - intros i1 i2. apply get_order_indices.
  - intros H1 H2. destruct (get_order_present lst st1 st2 H1 H2) as (s & r & Ho & _).
    exists (s, r). split; [exact Ho|]. rewrite <- Ho. symmetry.
    apply get_order_comm; assumption.
  - apply get_order_absent.
Qed.

Lemma get_order_spec_witness :
  (index_of ["STA1"; "STA2"; "STA3"] "STA3" 2 /\
   index_of ["STA1"; "STA2"; "STA3"] "STA1" 0 /\
   get_order ["STA1"; "STA2"; "STA3"] "STA3" "STA1" = OK ("STA1", "STA3"))
  /\ (("STA3" ∈ ["STA1"; "STA2"; "STA3"]) /\ ("STA1" ∈ ["STA1"; "STA2"; "STA3"]) /\
      get_order ["STA1"; "STA2"; "STA3"] "STA3" "STA1" =
      get_order ["STA1"; "STA2"; "STA3"] "STA1" "STA3")
  /\ (("STA9" ∉ ["STA1"; "STA2"; "STA3"]) /\
      is_ValueError (get_order ["STA1"; "STA2"; "STA3"] "STA1" "STA9")).
Proof.
  set (lst := ["STA1"; "STA2"; "STA3"]).
  assert (index_of lst "STA3" 2) as H3.
  { split; [reflexivity|]. intros [|[|j]] Hj; [discriminate | discriminate | lia]. }
  assert (index_of lst "STA1" 0) as H1.
  { split; [reflexivity|]. intros j Hj. lia. }
  assert ("STA3" ∈ lst) as E3 by by_compute.
  assert ("STA1" ∈ lst) as E1 by by_compute.
  assert ("STA9" ∉ lst) as E9 by by_compute.
  split; [|split].
  - split; [exact H3|]. split; [exact H1|].
    exact (proj1 (get_order_spec lst "STA3" "STA1") 2%nat 0%nat H3 H1).
  - split; [exact E3|]. split; [exact E1|].
    destruct (proj1 (proj2 (get_order_spec lst "STA3" "STA1")) E3 E1) as (r & -> & ->).
    reflexivity.
  - split; [exact E9|].
    exact (proj2 (proj2 (get_order_spec lst "STA1" "STA9")) (or_intror E9)).
Defined.

(** ** [get_pred_pv] *)

Section DispersionFacts.
Context {F : Type}.
Implicit Types (D : dispersion F) (m : gmap string (pyseq F * pyseq F)).

Lemma seq_data_asarray (x : pyseq F) : seq_data (asarray x) = seq_data x.
Proof. reflexivity. Qed.

Lemma forward_key_text (n1 s1 n2 s2 : string) :
  forward_key n1 s1 n2 s2 = n1 +:+ "_" +:+ s1 +:+ "_" +:+ n2 +:+ "_" +:+ s2.
Proof. reflexivity. Qed.

Lemma reversed_key_text (n1 s1 n2 s2 : string) :
  reversed_key n1 s1 n2 s2 = n2 +:+ "_" +:+ s2 +:+ "_" +:+ n1 +:+ "_" +:+ s1.
Proof. reflexivity. Qed.

Lemma reversed_key_swap (n1 s1 n2 s2 : string) :
  reversed_key n2 s2 n1 s1 = forward_key n1 s1 n2 s2.
Proof. reflexivity. Qed.

Lemma truthy_table_Some m : m ≠ ∅ -> truthy_table (Some m) = true.
Proof. intros Hm. unfold truthy_table. rewrite bool_decide_eq_false_2; done. Qed.

Lemma key_in_Some m k c : m !! k = Some c -> key_in (Some k) m = true.
Proof. intros Hk. unfold key_in. rewrite Hk. apply bool_decide_eq_true_2. eauto. Qed.

Lemma key_in_None m k : m !! k = None -> key_in (Some k) m = false.
Proof.
  intros Hk. unfold key_in. rewrite Hk. apply bool_decide_eq_false_2.
  intros [c Hc]. discriminate.
Qed.

Lemma get_pred_pv_absent D n1 s1 n2 s2 pair pair_r :
  PRED_PV D = None \/ PRED_PV D = Some ∅ ->
  get_pred_pv D n1 s1 n2 s2 pair pair_r =
    (asarray (PHPRPER D), asarray (PHPRVEL D)).
Proof.
  unfold get_pred_pv. intros [-> | ->]; [reflexivity|].
  unfold truthy_table. rewrite bool_decide_eq_true_2; done.
Qed.

Lemma get_pred_pv_forward D m n1 s1 n2 s2 c :
  PRED_PV D = Some m ->
  m !! forward_key n1 s1 n2 s2 = Some c ->
  get_pred_pv D n1 s1 n2 s2 None None = (asarray c.1, asarray c.2).
Proof.
  intros HD Hf. unfold get_pred_pv. rewrite HD.
  rewrite truthy_table_Some by (intros ->; rewrite lookup_empty in Hf; discriminate).
  rewrite (key_in_Some _ _ _ Hf). simpl. rewrite Hf. reflexivity.
Qed.

Lemma get_pred_pv_reversed D m n1 s1 n2 s2 c :
  PRED_PV D = Some m ->
  m !! forward_key n1 s1 n2 s2 = None ->
  m !! reversed_key n1 s1 n2 s2 = Some c ->
  get_pred_pv D n1 s1 n2 s2 None None = (asarray c.1, asarray c.2).
Proof.
  intros HD Hf Hr. unfold get_pred_pv. rewrite HD.
  rewrite truthy_table_Some by (intros ->; rewrite lookup_empty in Hr; discriminate).
  rewrite (key_in_None _ _ Hf), (key_in_Some _ _ _ Hr). simpl. rewrite Hr.
  reflexivity.
Qed.

Lemma get_pred_pv_neither D m n1 s1 n2 s2 :
  PRED_PV D = Some m -> m ≠ ∅ ->
  m !! forward_key n1 s1 n2 s2 = None ->
  m !! reversed_key n1 s1 n2 s2 = None ->
  get_pred_pv D n1 s1 n2 s2 None None = (PHPRPER D, PHPRVEL D).
Proof.
  intros HD Hm Hf Hr. unfold get_pred_pv. rewrite HD.
  rewrite (truthy_table_Some _ Hm).
  rewrite (key_in_None _ _ Hf), (key_in_None _ _ Hr). reflexivity.
Qed.

End DispersionFacts.

(** C3. [get_pred_pv]: (1) with no pair table, or an empty one, the result
    is the global curve ([PHPRPER], [PHPRVEL]), as arrays, whatever the
    arguments; and, called without explicit pair keys, (2) the forward key is [n1_s1_n2_s2] and the
    reversed key [n2_s2_n1_s1]; (3) when the forward key is in the table its
    curve is returned, whatever is stored under the reversed key; (4) when
    only the reversed key is in the table, its curve is returned, so that
    (5) a query in the reversed direction finds a curve stored under the
    forward direction; (6) when neither key is in the table the result is
    the global curve. *)
Theorem get_pred_pv_spec {F : Type} (D : dispersion F) (n1 s1 n2 s2 : string) :
  (PRED_PV D = None \/ PRED_PV D = Some ∅ ->
     forall pair pair_r,
     get_pred_pv D n1 s1 n2 s2 pair pair_r =
       (asarray (PHPRPER D), asarray (PHPRVEL D)))
  /\ (forward_key n1 s1 n2 s2 = n1 +:+ "_" +:+ s1 +:+ "_" +:+ n2 +:+ "_" +:+ s2
      /\ reversed_key n1 s1 n2 s2 = n2 +:+ "_" +:+ s2 +:+ "_" +:+ n1 +:+ "_" +:+ s1)
  /\ (forall m c, PRED_PV D = Some m ->
        m !! forward_key n1 s1 n2 s2 = Some c ->
        get_pred_pv D n1 s1 n2 s2 None None = (asarray c.1, asarray c.2))
  /\ (forall m c, PRED_PV D = Some m ->
        m !! forward_key n1 s1 n2 s2 = None ->
        m !! reversed_key n1 s1 n2 s2 = Some c ->
        get_pred_pv D n1 s1 n2 s2 None None = (asarray c.1, asarray c.2))
  /\ (forall m c, PRED_PV D = Some m ->
        m !! forward_key n1 s1 n2 s2 = Some c ->
        m !! forward_key n2 s2 n1 s1 = None ->
        get_pred_pv D n2 s2 n1 s1 None None = (asarray c.1, asarray c.2))
  /\ (forall m, PRED_PV D = Some m -> m ≠ ∅ ->
        m !! forward_key n1 s1 n2 s2 = None ->
        m !! reversed_key n1 s1 n2 s2 = None ->
        get_pred_pv D n1 s1 n2 s2 None None = (PHPRPER D, PHPRVEL D)).
Proof.
  repeat split.
  - intros Habs pair pair_r. apply get_pred_pv_absent, Habs.
  - intros m c. apply get_pred_pv_forward.
  - intros m c. apply get_pred_pv_reversed.
  - intros m c HD Hf Hr. apply (get_pred_pv_reversed D m); assumption.
  - intros m. apply get_pred_pv_neither.
Qed.

Lemma get_pred_pv_spec_witness :
  (PRED_PV Ex.disp_none = None /\
   get_pred_pv Ex.disp_none "NETA" "S1" "NETB" "S2" None None =
     (NdArray [4; 8], NdArray [30; 32]))
  /\ (get_pred_pv Ex.disp_both "NETA" "S1" "NETB" "S2" None None = Ex.curveX /\
      get_pred_pv Ex.disp_both "NETB" "S2" "NETA" "S1" None None = Ex.curveY)
  /\ get_pred_pv Ex.disp_one "NETB" "S2" "NETA" "S1" None None = Ex.curveX
  /\ get_pred_pv Ex.disp_one "NETA" "S1" "NETC" "S3" None None =
       (PyList [4; 8], PyList [30; 32]).
Proof.
  split; [|split; [|split]].
  - split; [reflexivity|].
    apply (proj1 (get_pred_pv_spec Ex.disp_none "NETA" "S1" "NETB" "S2")).
    left. reflexivity.
  - split.
    + refine (proj1 (proj2 (proj2 (get_pred_pv_spec Ex.disp_both "NETA" "S1" "NETB" "S2")))
                _ Ex.curveX eq_refl _).
      vm_compute. reflexivity.
    + refine (proj1 (proj2 (proj2 (get_pred_pv_spec Ex.disp_both "NETB" "S2" "NETA" "S1")))
                _ Ex.curveY eq_refl _).
      vm_compute. reflexivity.
  - refine (proj1 (proj2 (proj2 (proj2 (proj2
      (get_pred_pv_spec Ex.disp_one "NETA" "S1" "NETB" "S2")))))
      _ Ex.curveX eq_refl _ _); vm_compute; reflexivity.
  - refine (proj2 (proj2 (proj2 (proj2 (proj2
      (get_pred_pv_spec Ex.disp_one "NETA" "S1" "NETC" "S3")))))
      _ eq_refl _ _ _); [|vm_compute; reflexivity..].
    intros Hm. apply (f_equal (fun m => m !! "NETA_S1_NETB_S2")) in Hm.
    vm_compute in Hm. discriminate.
Defined.

(** ** [group_sta] *)

Lemma getitem_nat {A : Type} (lst : list A) (k : nat) :
  Py.getitem lst (Z.of_nat k) =
    match lst !! k with
    | Some x => OK x
    | None => raise (IndexError "list index out of range")
    end.
Proof.
  unfold Py.getitem.
  destruct (Z.ltb_spec (Z.of_nat k) 0) as [Hlt|_]; [lia|].
  destruct (Z.ltb_spec (Z.of_nat k) 0) as [Hlt|_]; [lia|].
  rewrite Nat2Z.id. reflexivity.
Qed.

Section GroupStaFacts.
Context {L : Type} `{EqDecision L}.
Variable set_list : list L -> list L.

(** [list(set(lnum))] holds each value of [lnum] once. *)
Hypothesis set_list_NoDup : forall l, NoDup (set_list l).
Hypothesis set_list_elem : forall l x, x ∈ set_list l <-> x ∈ l.

Lemma distinct_count (lnum : list L) :
  length (set_list lnum) = length (remove_dups lnum).
Proof.
  apply Permutation_length, NoDup_Permutation.
  - apply set_list_NoDup.
  - apply NoDup_remove_dups.
  - intros x. rewrite set_list_elem, elem_of_remove_dups. reflexivity.
Qed.

Lemma group_loop_covered (lnum num : list L) (n0 : L) (lst : list string) :
  num !! 0%nat = Some n0 ->
  forall k g0 g1, (k + length lst <= length lnum)%nat ->
  group_loop lnum num k lst g0 g1 =
    OK (g0 ++ with_label n0 lst (drop k lnum),
        g1 ++ without_label n0 lst (drop k lnum)).
Proof.
  intros Hn0. unfold with_label, without_label.
  induction lst as [|st rest IH]; intros k g0 g1 Hlen; simpl.
  - rewrite !app_nil_r. reflexivity.
  - simpl in Hlen. rewrite getitem_nat.
    destruct (lookup_lt_is_Some_2 lnum k) as [l Hl]; [lia|].
    rewrite Hl. simpl. change 0 with (Z.of_nat 0). rewrite getitem_nat, Hn0. simpl.
    rewrite (drop_S _ _ _ Hl). simpl.
    destruct (decide (l = n0)) as [->|Hne].
    + rewrite IH by lia.
      rewrite filter_cons_True by reflexivity.
      rewrite filter_cons_False by (simpl; tauto).
      simpl. rewrite <- app_assoc. reflexivity.
    + rewrite IH by lia.
      rewrite filter_cons_False by (simpl; tauto).
      rewrite filter_cons_True by (simpl; tauto).
      simpl. rewrite <- app_assoc. reflexivity.
Qed.

Lemma group_loop_short (lnum num : list L) (n0 : L) (lst : list string) :
  num !! 0%nat = Some n0 ->
  forall k g0 g1, (k <= length lnum < k + length lst)%nat ->
  group_loop lnum num k lst g0 g1 = raise (IndexError "list index out of range").
Proof.
  intros Hn0.
  induction lst as [|st rest IH]; intros k g0 g1 Hlen; simpl in *.
  - lia.
  - rewrite getitem_nat.
    destruct (lnum !! k) as [l|] eqn:Hl; [|reflexivity].
    apply lookup_lt_Some in Hl.
    simpl. change 0 with (Z.of_nat 0). rewrite getitem_nat, Hn0. simpl.
    destruct (decide (l = n0)); apply IH; lia.
Qed.

Lemma groups_permutation (n0 : L) (lst : list string) (lnum : list L) :
  (length lst <= length lnum)%nat ->
  with_label n0 lst lnum ++ without_label n0 lst lnum ≡ₚ lst.
Proof.
  intros Hlen. unfold with_label, without_label.
  rewrite <- fmap_app, filter_app_complement, fst_zip by exact Hlen.
  reflexivity.
Qed.

Lemma with_label_sublist (n0 : L) (lst : list string) (lnum : list L) :
  (length lst <= length lnum)%nat -> sublist (with_label n0 lst lnum) lst.
Proof.
  intros Hlen. unfold with_label.
  rewrite <- (fst_zip lst lnum Hlen) at 2.
  apply fmap_sublist, sublist_filter.
Qed.

Lemma without_label_sublist (n0 : L) (lst : list string) (lnum : list L) :
  (length lst <= length lnum)%nat -> sublist (without_label n0 lst lnum) lst.
Proof.
  intros Hlen. unfold without_label.
  rewrite <- (fst_zip lst lnum Hlen) at 2.
  apply fmap_sublist, sublist_filter.
Qed.

Lemma groups_disjoint (n0 : L) (lst : list string) (lnum : list L) :
  (length lst <= length lnum)%nat -> NoDup lst ->
  forall st, st ∈ with_label n0 lst lnum -> st ∉ without_label n0 lst lnum.
Proof.
  intros Hlen Hnd.
  rewrite <- (groups_permutation n0 lst lnum Hlen) in Hnd.
  apply NoDup_app in Hnd as (_ & Hdisj & _). exact Hdisj.
Qed.

Lemma two_labels (lnum : list L) :
  length (set_list lnum) = 2%nat ->
  exists n0 n1, set_list lnum = [n0; n1] /\ n0 <> n1 /\
    forall l, l ∈ lnum <-> l = n0 \/ l = n1.
Proof.
  intros Hlen. pose proof (set_list_NoDup lnum) as Hnd.
  destruct (set_list lnum) as [|n0 [|n1 [|? ?]]] eqn:Hs; try discriminate.
  exists n0, n1. split; [reflexivity|]. split.
  - apply NoDup_cons in Hnd as [Hn _]. intros ->. apply Hn. left.
  - intros l. rewrite <- set_list_elem, Hs.
    rewrite !elem_of_cons, elem_of_nil. tauto.
Qed.

Lemma group_sta_count (lst : list string) (lnum : list L) :
  group_sta set_list lst lnum = raise (ValueError "# of group != 2.") <->
  length (remove_dups lnum) <> 2%nat.
Proof.
  unfold group_sta. rewrite <- distinct_count. case_bool_decide as Hc.
  - split; [intros _; exact Hc | reflexivity].
  - split; [|intros Hn; contradiction].
    assert (length (set_list lnum) = 2%nat) as Hlen by lia.
    destruct (two_labels lnum Hlen) as (n0 & n1 & Hs & _).
    destruct (decide (length lst <= length lnum)%nat) as [Hle|Hgt].
    + rewrite (group_loop_covered lnum _ n0) by (rewrite ?Hs; done || (simpl; lia)).
      discriminate.
    + rewrite (group_loop_short lnum _ n0) by (rewrite ?Hs; done || (simpl; lia)).
      discriminate.
Qed.

End GroupStaFacts.

(** C4, amended. [group_sta] raises [ValueError('# of group != 2.')] exactly
    when the number of distinct labels is not 2. With exactly two distinct
    labels [n0], [n1] ([n0] the first in the iteration order of the set)
    and a label for every station, it returns the stations labelled [n0]
    and the stations labelled otherwise, each in the order of [lst]; the
    two groups together are a permutation of [lst], and they share no
    station when the stations of [lst] are pairwise distinct. With fewer
    labels than stations it raises [IndexError]. *)
Theorem group_sta_spec {L : Type} `{EqDecision L} (set_list : list L -> list L)
    (set_list_NoDup : forall l, NoDup (set_list l))
    (set_list_elem : forall l x, x ∈ set_list l <-> x ∈ l)
    (lst : list string) (lnum : list L) :
  (group_sta set_list lst lnum = raise (ValueError "# of group != 2.") <->
   length (remove_dups lnum) <> 2%nat)
  /\ (length (remove_dups lnum) = 2%nat -> (length lst <= length lnum)%nat ->
      exists n0 n1,
        set_list lnum = [n0; n1] /\ n0 <> n1 /\
        (forall l, l ∈ lnum <-> l = n0 \/ l = n1) /\
        group_sta set_list lst lnum =
          OK (with_label n0 lst lnum, without_label n0 lst lnum) /\
        with_label n0 lst lnum ++ without_label n0 lst lnum ≡ₚ lst /\
        sublist (with_label n0 lst lnum) lst /\
        sublist (without_label n0 lst lnum) lst /\
        (NoDup lst ->
         forall st, st ∈ with_label n0 lst lnum -> st ∉ without_label n0 lst lnum))
  /\ (length (remove_dups lnum) = 2%nat -> (length lnum < length lst)%nat ->
      group_sta set_list lst lnum = raise (IndexError "list index out of range")).
Proof.
  split; [|split].
  - apply group_sta_count; assumption.
  - intros Hc Hlen. rewrite <- (distinct_count set_list) in Hc by assumption.
    destruct (two_labels set_list set_list_NoDup set_list_elem lnum Hc)
      as (n0 & n1 & Hs & Hne & Hall).
    exists n0, n1. repeat split; try assumption; try apply Hall.
    + unfold group_sta. rewrite bool_decide_eq_false_2 by (intros Hn; apply Hn, Hc).
      rewrite (group_loop_covered lnum _ n0) by (rewrite ?Hs; done || (simpl; lia)).
      reflexivity.
    + apply groups_permutation, Hlen.
    + apply with_label_sublist, Hlen.
    + apply without_label_sublist, Hlen.
    + intros Hnd. apply groups_disjoint; assumption.
  - intros Hc Hlen. rewrite <- (distinct_count set_list) in Hc by assumption.
    destruct (two_labels set_list set_list_NoDup set_list_elem lnum Hc)
      as (n0 & n1 & Hs & _).
    unfold group_sta. rewrite bool_decide_eq_false_2 by (intros Hn; apply Hn, Hc).
    apply (group_loop_short lnum _ n0); [rewrite Hs; reflexivity | simpl; lia].
Qed.

Lemma group_sta_spec_witness :
  length (remove_dups [1; 2; 1; 2]) = 2%nat /\
  (length ["A"; "B"; "C"; "D"] <= length [1; 2; 1; 2])%nat /\
  group_sta remove_dups ["A"; "B"; "C"; "D"] [1; 2; 1; 2] =
    OK (["A"; "C"], ["B"; "D"]).
Proof.
  assert (length (remove_dups [1; 2; 1; 2]) = 2%nat) as Hc by reflexivity.
  assert (length ["A"; "B"; "C"; "D"] <= length [1; 2; 1; 2])%nat as Hlen
    by (simpl; lia).
  split; [exact Hc|]. split; [exact Hlen|].
  destruct (proj1 (proj2 (group_sta_spec remove_dups NoDup_remove_dups
              elem_of_remove_dups ["A"; "B"; "C"; "D"] [1; 2; 1; 2])) Hc Hlen)
    as (n0 & n1 & Hs & _ & _ & Hg & _).
  vm_compute in Hs. injection Hs as <- <-. exact Hg.
Defined.

(** C4 as stated fails: with exactly two distinct labels the call does not
    return when a station has no label, and the same station is in both
    groups when [lst] lists it twice under different labels. *)
Lemma group_sta_two_labels_counterexample :
  (length (remove_dups [1; 2]) = 2%nat /\
   group_sta remove_dups ["A"; "B"; "C"] [1; 2] =
     raise (IndexError "list index out of range") /\
   ~ exists g, group_sta remove_dups ["A"; "B"; "C"] [1; 2] = OK g)
  /\ (length (remove_dups [1; 2]) = 2%nat /\
      group_sta remove_dups ["A"; "A"] [1; 2] = OK (["A"], ["A"])).
Proof.
  split; [split; [reflexivity | split; [reflexivity|]] | split; reflexivity].
  intros [g Hg]. vm_compute in Hg. discriminate.
Qed.

(** ** Strings and paths *)

Lemma str_app_assoc (a b c : string) : (a +:+ b) +:+ c = a +:+ b +:+ c.
Proof.
  induction a as [|x a IH]; [reflexivity|].
  change (String x ((a +:+ b) +:+ c) = String x (a +:+ b +:+ c)). rewrite IH. reflexivity.
Qed.

Lemma prefix_app (s t : string) : String.prefix s (s +:+ t) = true.
Proof.
  induction s as [|c s IH]; [destruct t; reflexivity|].
  change (String.prefix (String c s) (String c (s +:+ t)) = true). simpl.
  destruct (ascii_dec c c) as [_|Hne]; [exact IH | contradiction].
Qed.

Lemma contains_prefix (sub s : string) :
  String.prefix sub s = true -> Py.contains sub s = true.
Proof.
  intros Hp. destruct s as [|c s].
  - change (String.prefix sub "" || false = true). rewrite Hp. reflexivity.
  - change (String.prefix sub (String c s) || Py.contains sub s = true).
    rewrite Hp. reflexivity.
Qed.

Lemma contains_app (sub pre post : string) :
  Py.contains sub (pre +:+ sub +:+ post) = true.
Proof.
  induction pre as [|c pre IH].
  - change (Py.contains sub (sub +:+ post) = true).
    apply contains_prefix, prefix_app.
  - change (Py.contains sub (String c (pre +:+ sub +:+ post)) = true).
    change (String.prefix sub (String c (pre +:+ sub +:+ post))
            || Py.contains sub (pre +:+ sub +:+ post) = true).
    rewrite IH. apply orb_true_r.
Qed.

(** The last component of [join] is the end of the path. *)
Lemma join_step_suffix (path b : string) :
  exists pre, PosixPath.join_step path b = pre +:+ b.
Proof.
  unfold PosixPath.join_step. destruct (PosixPath.startswith_sep b).
  - exists "". reflexivity.
  - destruct (bool_decide (path = "") || PosixPath.endswith_sep path).
    + exists path. reflexivity.
    + exists (path +:+ "/"). rewrite str_app_assoc. reflexivity.
Qed.

Lemma join_suffix (a : string) (p : list string) (b : string) :
  exists pre, PosixPath.join a (p ++ [b]) = pre +:+ b.
Proof.
  unfold PosixPath.join. rewrite fold_left_app. simpl. apply join_step_suffix.
Qed.

Lemma upper_char_idem (c : ascii) :
  Py.upper_char (Py.upper_char c) = Py.upper_char c.
Proof. destruct c as [[] [] [] [] [] [] [] []]; reflexivity. Qed.

Lemma upper_lower_char (c : ascii) :
  Py.upper_char (Py.lower_char c) = Py.upper_char c.
Proof. destruct c as [[] [] [] [] [] [] [] []]; reflexivity. Qed.

Lemma upper_idem (s : string) : Py.upper (Py.upper s) = Py.upper s.
Proof.
  induction s as [|c s IH]; [reflexivity|].
  unfold Py.upper in *. simpl. rewrite upper_char_idem, IH. reflexivity.
Qed.

Lemma upper_lower (s : string) : Py.upper (Py.lower s) = Py.upper s.
Proof.
  induction s as [|c s IH]; [reflexivity|].
  unfold Py.upper, Py.lower in *. simpl. rewrite upper_lower_char, IH. reflexivity.
Qed.

(** ** [get_fnm] *)

Lemma index_of_fmap_Some (lst : list string) (x : string) (i : nat) :
  index_of lst x i -> index_of (Some <$> lst) (Some x) i.
Proof.
  intros [Hl Hfirst]. split.
  - rewrite list_lookup_fmap, Hl. reflexivity.
  - intros j Hj. rewrite list_lookup_fmap. intros Heq.
    apply (Hfirst j Hj). destruct (lst !! j); simpl in Heq; congruence.
Qed.

Lemma get_fnm_upper (P : param) (ALL_STATION : list string) (kind : string)
    (sta1 sta2 sta3 lags pre I2 : option string) :
  get_fnm P ALL_STATION (Py.upper kind) sta1 sta2 sta3 lags pre I2 =
  get_fnm P ALL_STATION kind sta1 sta2 sta3 lags pre I2.
Proof. unfold get_fnm. rewrite upper_idem. reflexivity. Qed.

Lemma get_fnm_swap (P : param) (ALL_STATION : list string) (kind a b : string)
    (sta3 lags pre : option string) :
  a ∈ ALL_STATION -> b ∈ ALL_STATION ->
  get_fnm P ALL_STATION kind (Some a) (Some b) sta3 lags pre None =
  get_fnm P ALL_STATION kind (Some b) (Some a) sta3 lags pre None.
Proof.
  intros Ha Hb. unfold get_fnm.
  rewrite (get_order_comm (Some <$> ALL_STATION) (Some a) (Some b))
    by (apply list_elem_of_fmap_2; assumption).
  reflexivity.
Qed.

Lemma fnm_of_pair_returns (P : param) (kind src rec : string)
    (sta3 lags pre I2 : option string) :
  kind ∈ pair_kinds ->
  exists ev r, fnm_of_pair P kind src rec sta3 lags pre I2 = (ev, OK r).
Proof.
  unfold pair_kinds. rewrite !elem_of_cons, elem_of_nil.
  intros [->|[->|[->|[->|[->|[->|[]]]]]]]; unfold fnm_of_pair; simpl;
    try (eexists _, _; reflexivity).
  destruct (bool_decide (nlag (p_interferometry P) = 2)); eexists _, _; reflexivity.
Qed.

Lemma pair_kind_dispatch (P : param) (ALL_STATION : list string) (kind : string)
    (sta1 sta2 sta3 lags pre I2 : option string) :
  Py.upper kind ∈ pair_kinds ->
  get_fnm P ALL_STATION kind sta1 sta2 sta3 lags pre I2 =
    let sta2' := match I2 with
                 | Some p => Some (PosixPath.basename (PosixPath.dirname p))
                 | None => sta2
                 end in
    let name := PosixPath.basename <$> I2 in
    match get_order (Some <$> ALL_STATION) sta1 sta2' with
    | inl e => ([], inl e)
    | inr (src, rec) =>
        fnm_of_pair P (Py.upper kind) (Py.str src) (Py.str rec) sta3 lags pre name
    end.
Proof.
  unfold pair_kinds. rewrite !elem_of_cons, elem_of_nil. unfold get_fnm.
  intros [->|[->|[->|[->|[->|[->|[]]]]]]]; simpl; destruct I2; reflexivity.
Qed.

Lemma endswith_sep_app (a b : string) :
  b <> "" -> PosixPath.endswith_sep (a +:+ b) = PosixPath.endswith_sep b.
Proof.
  intros Hb. induction a as [|c a IH]; [reflexivity|].
  change (PosixPath.endswith_sep (String c (a +:+ b)) = PosixPath.endswith_sep b).
  simpl. destruct (a +:+ b) eqn:Hab; [|exact IH].
  destruct a; [|discriminate]. contradiction.
Qed.

Lemma join_plain (a b : string) :
  a <> "" -> PosixPath.endswith_sep a = false -> PosixPath.startswith_sep b = false ->
  PosixPath.join a [b] = a +:+ "/" +:+ b.
Proof.
  intros Ha He Hs. unfold PosixPath.join, PosixPath.join_step. simpl.
  rewrite Hs, He, bool_decide_eq_false_2 by exact Ha. reflexivity.
Qed.

Lemma join_plain2 (d src f : string) :
  d <> "" -> PosixPath.endswith_sep d = false ->
  src <> "" -> PosixPath.startswith_sep src = false ->
  PosixPath.endswith_sep src = false ->
  PosixPath.startswith_sep f = false ->
  PosixPath.join (PosixPath.join d [src]) [f] = d +:+ "/" +:+ src +:+ "/" +:+ f.
Proof.
  intros Hd Hde Hs Hss Hse Hf.
  rewrite (join_plain d src) by assumption.
  rewrite join_plain.
  - rewrite !str_app_assoc. reflexivity.
  - destruct d; [contradiction | discriminate].
  - rewrite <- str_app_assoc, endswith_sep_app by exact Hs. exact Hse.
  - exact Hf.
Qed.

(** C1, amended. When no I2 path is given, [get_fnm] returns the same for
    [(sta1, sta2) = (a, b)] and for [(b, a)], for stations [a], [b] of
    [ALL_STATION] and every kind, the other arguments being the same; for
    the kinds named after a pair the call returns; and for kind [I2], when
    [a] comes before [b] in [ALL_STATION], the path contains [COR_a_b]
    whichever of the two is given first. *)
Theorem get_fnm_pair_order (P : param) (ALL_STATION : list string)
    (kind a b : string) (sta3 lags pre : option string) :
  a ∈ ALL_STATION -> b ∈ ALL_STATION ->
  get_fnm P ALL_STATION kind (Some a) (Some b) sta3 lags pre None =
  get_fnm P ALL_STATION kind (Some b) (Some a) sta3 lags pre None
  /\ (Py.upper kind ∈ pair_kinds ->
      exists ev r,
        get_fnm P ALL_STATION kind (Some a) (Some b) sta3 lags pre None = (ev, OK r))
  /\ (Py.upper kind = "I2" ->
      forall i j, index_of ALL_STATION a i -> index_of ALL_STATION b j -> (i < j)%nat ->
      exists path,
        get_fnm P ALL_STATION kind (Some a) (Some b) sta3 lags pre None =
          ([], OK (OnePath path)) /\
        get_fnm P ALL_STATION kind (Some b) (Some a) sta3 lags pre None =
          ([], OK (OnePath path)) /\
        Py.contains ("COR_" +:+ a +:+ "_" +:+ b) path = true).
Proof.
  intros Ha Hb. split; [apply get_fnm_swap; assumption|]. split.
  - intros Hk. rewrite pair_kind_dispatch by exact Hk. simpl.
    destruct (get_order_present (Some <$> ALL_STATION) (Some a) (Some b))
      as (src & rec & -> & _); [apply list_elem_of_fmap_2; assumption..|].
    apply fnm_of_pair_returns, Hk.
  - intros Hk i j Hi Hj Hlt.
    rewrite <- (get_fnm_swap P ALL_STATION kind a b) by assumption.
    rewrite pair_kind_dispatch by (rewrite Hk; by_compute). simpl.
    rewrite (get_order_indices _ _ _ i j) by (apply index_of_fmap_Some; assumption).
    rewrite bool_decide_eq_true_2 by lia. rewrite Hk.
    unfold fnm_of_pair. simpl.
    destruct (join_suffix (dir_project (p_dir P)) [dir_I2 (p_dir P); a]
                ("COR_" +:+ a +:+ "_" +:+ b +:+ ".SAC")) as [front Hfront].
    simpl in Hfront. eexists. split; [reflexivity|]. split; [reflexivity|].
    rewrite Hfront.
    replace ("COR_" +:+ a +:+ "_" +:+ b +:+ ".SAC")
      with (("COR_" +:+ a +:+ "_" +:+ b) +:+ ".SAC")
      by (rewrite !str_app_assoc; reflexivity).
    apply contains_app.
Qed.

Lemma get_fnm_pair_order_witness :
  ("STA1" ∈ Ex.stations) /\ ("STA2" ∈ Ex.stations) /\
  get_fnm Ex.P0 Ex.stations "i2" (Some "STA1") (Some "STA2") None None None None =
  get_fnm Ex.P0 Ex.stations "i2" (Some "STA2") (Some "STA1") None None None None /\
  Py.upper "i2" = "I2" /\
  index_of Ex.stations "STA1" 0 /\ index_of Ex.stations "STA2" 1 /\
  exists path,
    get_fnm Ex.P0 Ex.stations "i2" (Some "STA2") (Some "STA1") None None None None =
      ([], OK (OnePath path)) /\
    Py.contains "COR_STA1_STA2" path = true.
Proof.
  assert ("STA1" ∈ Ex.stations) as H1 by by_compute.
  assert ("STA2" ∈ Ex.stations) as H2 by by_compute.
  assert (index_of Ex.stations "STA1" 0) as I1.
  { split; [reflexivity|]. intros j Hj. lia. }
  assert (index_of Ex.stations "STA2" 1) as I2.
  { split; [reflexivity|]. intros [|j] Hj; [discriminate | lia]. }
  pose proof (get_fnm_pair_order Ex.P0 Ex.stations "i2" "STA1" "STA2"
                None None None H1 H2) as (Hswap & _ & Hcor).
  destruct (Hcor eq_refl 0%nat 1%nat I1 I2 ltac:(lia)) as (path & _ & Hp & Hc).
  repeat (split; [assumption || reflexivity|]).
  exists path. split; [exact Hp | exact Hc].
Defined.

Example get_fnm_I2_ex :
  get_fnm Ex.P0 Ex.stations "I2" (Some "STA2") (Some "STA1") None None None None =
    ([], OK (OnePath "proj/I2/STA1/COR_STA1_STA2.SAC")).
Proof. reflexivity. Qed.

Example get_fnm_C3_ex :
  get_fnm Ex.P0 Ex.stations "c3" (Some "STA3") (Some "STA1") (Some "STA2")
    (Some "PN") None None =
    ([], OK (OnePath "proj/out/STA1/STA3/STA2_PN_STA1_STA3.SAC")).
Proof. reflexivity. Qed.

(** C1 as stated fails: with an I2 path among the other arguments, [sta2]
    is replaced by the name of the directory of that path, and the two
    calls differ in [sta1]. *)
Lemma get_fnm_pair_order_counterexample :
  ("STA1" ∈ Ex.stations) /\ ("STA2" ∈ Ex.stations) /\
  get_fnm Ex.P0 Ex.stations "I2" (Some "STA1") (Some "STA2") None None None
    (Some "proj/I2/STA3/COR_STA3_STA4.SAC") =
    ([], OK (OnePath "proj/I2/STA1/COR_STA1_STA3.SAC")) /\
  get_fnm Ex.P0 Ex.stations "I2" (Some "STA2") (Some "STA1") None None None
    (Some "proj/I2/STA3/COR_STA3_STA4.SAC") =
    ([], OK (OnePath "proj/I2/STA2/COR_STA2_STA3.SAC")) /\
  get_fnm Ex.P0 Ex.stations "I2_LAG_RAW" (Some "STA1") (Some "STA2") None None None
    (Some "proj/I2/STA3/COR_STA3_STA4.SAC") <>
  get_fnm Ex.P0 Ex.stations "I2_LAG_RAW" (Some "STA2") (Some "STA1") None None None
    (Some "proj/I2/STA3/COR_STA3_STA4.SAC").
Proof.
  split; [by_compute|]. split; [by_compute|].
  split; [reflexivity|]. split; [reflexivity|].
  vm_compute. discriminate.
Qed.

(** C5. For kind [I2_LAG_RAW], with [src] the first station of the canonical
    pair: the result is the list of [P_name] and [N_name] under
    [join(DIROUT, src)] when [nlag] is 2, and the list of [S_name] alone
    otherwise, where [name] is the text of the [I2] argument; when an I2
    path is given, the second station is the name of its directory and
    [name] its base name, both taken before the pair is ordered, and
    [sta2] is not read; [mkdir] is called, on [join(DIROUT, src)], when and
    only when [PARAM['write']['lag']] holds, and no other kind calls it.
    With [DIROUT] and [src] plain names, the paths read
    [DIROUT/src/P_name], [DIROUT/src/N_name], [DIROUT/src/S_name]. *)
Theorem get_fnm_lag_raw (P : param) (ALL_STATION : list string) (kind : string)
    (sta1 sta2 sta3 lags pre I2 : option string) :
  let sta2' := match I2 with
               | Some p => Some (PosixPath.basename (PosixPath.dirname p))
               | None => sta2
               end in
  let name := Py.str (PosixPath.basename <$> I2) in
  (Py.upper kind = "I2_LAG_RAW" ->
   forall src rec,
     get_order (Some <$> ALL_STATION) sta1 sta2' = OK (Some src, Some rec) ->
     let stadir := PosixPath.join (DIROUT P) [src] in
     get_fnm P ALL_STATION kind sta1 sta2 sta3 lags pre I2 =
       (if write_lag (p_write P) then [Mkdir stadir] else [],
        OK (PathList
              (if bool_decide (nlag (p_interferometry P) = 2)
               then [PosixPath.join stadir ["P_" +:+ name];
                     PosixPath.join stadir ["N_" +:+ name]]
               else [PosixPath.join stadir ["S_" +:+ name]])))
     /\ (DIROUT P <> "" -> PosixPath.endswith_sep (DIROUT P) = false ->
         src <> "" -> PosixPath.startswith_sep src = false ->
         PosixPath.endswith_sep src = false ->
         forall tag : string, tag ∈ ["P_"; "N_"; "S_"] ->
         PosixPath.join stadir [tag +:+ name] =
           DIROUT P +:+ "/" +:+ src +:+ "/" +:+ tag +:+ name))
  /\ (write_lag (p_write P) = false ->
      (get_fnm P ALL_STATION kind sta1 sta2 sta3 lags pre I2).1 = [])
  /\ (Py.upper kind <> "I2_LAG_RAW" ->
      (get_fnm P ALL_STATION kind sta1 sta2 sta3 lags pre I2).1 = []).
Proof.
  intros sta2' name. split; [|split].
  - intros Hk src rec Ho. split.
    + rewrite pair_kind_dispatch by (rewrite Hk; by_compute).
      fold sta2'. cbv zeta. rewrite Ho, Hk. unfold fnm_of_pair. simpl.
      fold name. destruct (bool_decide (nlag (p_interferometry P) = 2)); reflexivity.
    + intros Hd Hde Hs Hss Hse tag Htag.
      rewrite join_plain2; try assumption; [reflexivity|].
      rewrite !elem_of_cons, elem_of_nil in Htag.
      destruct Htag as [->|[->|[->|[]]]]; reflexivity.
  - intros Hw. unfold get_fnm.
    repeat (match goal with |- context [if ?c then _ else _] => destruct c end;
            [reflexivity|]).
    destruct I2 as [p|];
      (destruct (get_order _ _ _) as [e|[src rec]]; [reflexivity|]);
      unfold fnm_of_pair; rewrite Hw;
      repeat (match goal with |- context [if ?c then _ else _] => destruct c end;
              try reflexivity).
  - intros Hk. unfold get_fnm.
    repeat (match goal with |- context [if ?c then _ else _] => destruct c end;
            [reflexivity|]).
    destruct I2 as [p|];
      (destruct (get_order _ _ _) as [e|[src rec]]; [reflexivity|]);
      unfold fnm_of_pair;
      repeat (case_bool_decide; [try reflexivity; try contradiction|]);
      reflexivity.
Qed.

Lemma get_fnm_lag_raw_witness :
  (Py.upper "i2_lag_raw" = "I2_LAG_RAW" /\
   get_order (Some <$> Ex.stations) (Some "STA3")
     (Some (PosixPath.basename (PosixPath.dirname "proj/I2/STA1/COR_STA1_STA3.SAC")))
     = OK (Some "STA1", Some "STA3") /\
   get_fnm Ex.P0 Ex.stations "i2_lag_raw" (Some "STA3") None None None None
     (Some "proj/I2/STA1/COR_STA1_STA3.SAC") =
     ([Mkdir "proj/out/STA1"],
      OK (PathList ["proj/out/STA1/P_COR_STA1_STA3.SAC";
                    "proj/out/STA1/N_COR_STA1_STA3.SAC"])))
  /\ (write_lag (p_write Ex.P1) = false /\
      get_fnm Ex.P1 Ex.stations "I2_LAG_RAW" (Some "STA3") None None None None
        (Some "proj/I2/STA1/COR_STA1_STA3.SAC") =
        ([], OK (PathList ["proj/out/STA1/S_COR_STA1_STA3.SAC"])))
  /\ (Py.upper "I3" <> "I2_LAG_RAW" /\
      (get_fnm Ex.P0 Ex.stations "I3" (Some "STA3") (Some "STA1")
         None None None None).1 = []).
Proof.
  split; [|split].
  - split; [reflexivity|]. split; [reflexivity|].
    exact (proj1 (proj1 (get_fnm_lag_raw Ex.P0 Ex.stations "i2_lag_raw" (Some "STA3")
                    None None None None (Some "proj/I2/STA1/COR_STA1_STA3.SAC"))
                    eq_refl "STA1" "STA3" eq_refl)).
  - split; [reflexivity|].
    exact (proj1 (proj1 (get_fnm_lag_raw Ex.P1 Ex.stations "I2_LAG_RAW" (Some "STA3")
                    None None None None (Some "proj/I2/STA1/COR_STA1_STA3.SAC"))
                    eq_refl "STA1" "STA3" eq_refl)).
  - assert (Py.upper "I3" <> "I2_LAG_RAW") as Hk by (vm_compute; discriminate).
    split; [exact Hk|].
    exact (proj2 (proj2 (get_fnm_lag_raw Ex.P0 Ex.stations "I3" (Some "STA3")
                    (Some "STA1") None None None None)) Hk).
Defined.

(** C10. [get_fnm] reads its kind through [upper], so kinds that differ in
    case only give the same result; [SOURCE] stands for [SOURCE-STATION];
    and for the kinds [I2_PATH] and [SOURCE-STATION] the result is the path
    under [DIROUT] and the meta directory, with no event and no exception,
    whatever the station list and the other arguments are (absent
    stations, [None]). *)
Theorem get_fnm_meta_kinds (P : param) (ALL_STATION : list string) (kind kind' : string)
    (sta1 sta2 sta3 lags pre I2 : option string) :
  (Py.upper kind = Py.upper kind' ->
   get_fnm P ALL_STATION kind sta1 sta2 sta3 lags pre I2 =
   get_fnm P ALL_STATION kind' sta1 sta2 sta3 lags pre I2)
  /\ get_fnm P ALL_STATION (Py.upper kind) sta1 sta2 sta3 lags pre I2 =
     get_fnm P ALL_STATION kind sta1 sta2 sta3 lags pre I2
  /\ get_fnm P ALL_STATION (Py.lower kind) sta1 sta2 sta3 lags pre I2 =
     get_fnm P ALL_STATION kind sta1 sta2 sta3 lags pre I2
  /\ get_fnm P ALL_STATION "SOURCE" sta1 sta2 sta3 lags pre I2 =
     get_fnm P ALL_STATION "SOURCE-STATION" sta1 sta2 sta3 lags pre I2
  /\ (Py.upper kind = "I2_PATH" ->
      get_fnm P ALL_STATION kind sta1 sta2 sta3 lags pre I2 =
        ([], OK (OnePath (PosixPath.join (DIROUT P)
               [dir_meta (p_dir P); dir_out (p_dir P) +:+ sfx_I2 (p_sfx P)]))))
  /\ (Py.upper kind = "SOURCE" \/ Py.upper kind = "SOURCE-STATION" ->
      get_fnm P ALL_STATION kind sta1 sta2 sta3 lags pre I2 =
        ([], OK (OnePath (PosixPath.join (DIROUT P)
               [dir_meta (p_dir P); dir_out (p_dir P) +:+ sfx_source (p_sfx P)])))).
Proof.
  repeat split.
  - intros Hk. unfold get_fnm. rewrite Hk. reflexivity.
  - apply get_fnm_upper.
  - unfold get_fnm. rewrite upper_lower. reflexivity.
  - intros Hk. unfold get_fnm. rewrite Hk. reflexivity.
  - intros [Hk|Hk]; unfold get_fnm; rewrite Hk; reflexivity.
Qed.

Lemma get_fnm_meta_kinds_witness :
  (Py.upper "Source" = Py.upper "sOURCE" /\
   get_fnm Ex.P0 [] "Source" None None None None None None =
   get_fnm Ex.P0 [] "sOURCE" None None None None None None)
  /\ (Py.upper "i2_path" = "I2_PATH" /\
      get_fnm Ex.P0 [] "i2_path" None None None None None None =
        ([], OK (OnePath "proj/out/meta/out_I2.lst")))
  /\ (Py.upper "source-station" = "SOURCE-STATION" /\
      get_fnm Ex.P0 Ex.stations "source-station" (Some "NOWHERE") None None None None None =
        ([], OK (OnePath "proj/out/meta/out_src.lst"))).
Proof.
  split; [|split].
  - split; [reflexivity|].
    exact (proj1 (get_fnm_meta_kinds Ex.P0 [] "Source" "sOURCE"
                    None None None None None None) eq_refl).
  - split; [reflexivity|].
    exact (proj1 (proj2 (proj2 (proj2 (proj2
             (get_fnm_meta_kinds Ex.P0 [] "i2_path" ""
                None None None None None None))))) eq_refl).
  - split; [reflexivity|].
    exact (proj2 (proj2 (proj2 (proj2 (proj2
             (get_fnm_meta_kinds Ex.P0 Ex.stations "source-station" ""
                (Some "NOWHERE") None None None None None))))) (or_intror eq_refl)).
Defined.

(** ** [_check] and the normalisation *)

Lemma normalize_flags (P : param) (fl : flags) :
  normalize P = OK fl ->
  (coda_conv fl <->
   Py.lower (wavetype (p_misc P)) ∈ coda_spellings /\
   Py.lower (operator (p_interferometry P)) ∈ conv_spellings)
  /\ (direct_welch P fl <->
      Py.lower (wavetype (p_misc P)) ∈ direct_spellings /\
      Welch (p_interferometry P) = true).
Proof.
  assert (forall w, w ∈ coda_spellings -> w ∈ direct_spellings -> False) as Hdisj.
  { intros w. unfold coda_spellings, direct_spellings.
    rewrite !elem_of_cons, !elem_of_nil. intuition congruence. }
  unfold normalize, normalize_wavetype, normalize_operator, Py.str_in,
    coda_conv, direct_welch.
  case_bool_decide as Hc; [|case_bool_decide as Hd]; simpl; [| |discriminate];
    (case_bool_decide as Hv; [|case_bool_decide as Hr]; simpl;
     [| |destruct (interferometry_type _); discriminate]);
    intros [= <-]; simpl; split; split;
    try (intros [? ?]; split; (assumption || reflexivity));
    try (intros (? & ? & ?); split; (assumption || reflexivity));
    intros; repeat split; try reflexivity; try tauto;
    try (exfalso; intuition (try discriminate; eauto)).
Qed.

(** C6. [_check] raises [ValueError] for coda with convolution and for the
    direct wave with Welch's method, and fails whenever [nlag] is 4 without
    [flip_nlag], with [NotImplementedError] when the first two rules hold;
    parameters that break none of the three rules pass; coda with the
    stationary phase zone logs one warning and passes. Coda is
    [USE_CW = True], the direct wave [USE_CW = False] and [USE_DW = True]:
    with the flags the normalisation sets, the first rule is broken exactly
    when the wave type is a spelling of coda and the operator a spelling of
    convolution, the second exactly when the wave type is a spelling of the
    direct wave and [Welch] holds. *)
Theorem check_spec (P : param) (fl : flags) :
  (coda_conv fl -> _check P fl = ([], raise (ValueError "NO convolution of coda")))
  /\ (direct_welch P fl ->
      _check P fl = ([], raise (ValueError "NOT use Welch's method for direct-wave")))
  /\ (lag4_noflip P -> exists ev e, _check P fl = (ev, raise e))
  /\ (lag4_noflip P -> ~ coda_conv fl -> ~ direct_welch P fl ->
      (_check P fl).2 =
        raise (NotImplementedError "4 lags MUST use the symmetric component"))
  /\ (~ coda_conv fl -> ~ direct_welch P fl -> ~ lag4_noflip P ->
      (_check P fl).2 = OK tt)
  /\ (USE_CW fl = true -> CONV fl = false -> spz (p_interferometry P) = true ->
      ~ lag4_noflip P ->
      _check P fl = ([LogWarning "Using stationary phase zone for coda"], OK tt))
  /\ (normalize P = OK fl ->
      (coda_conv fl <->
       Py.lower (wavetype (p_misc P)) ∈ coda_spellings /\
       Py.lower (operator (p_interferometry P)) ∈ conv_spellings)
      /\ (direct_welch P fl <->
          Py.lower (wavetype (p_misc P)) ∈ direct_spellings /\
          Welch (p_interferometry P) = true)).
Proof.
  cut ((coda_conv fl -> _check P fl = ([], raise (ValueError "NO convolution of coda")))
  /\ (direct_welch P fl ->
      _check P fl = ([], raise (ValueError "NOT use Welch's method for direct-wave")))
  /\ (lag4_noflip P -> exists ev e, _check P fl = (ev, raise e))
  /\ (lag4_noflip P -> ~ coda_conv fl -> ~ direct_welch P fl ->
      (_check P fl).2 =
        raise (NotImplementedError "4 lags MUST use the symmetric component"))
  /\ (~ coda_conv fl -> ~ direct_welch P fl -> ~ lag4_noflip P ->
      (_check P fl).2 = OK tt)
  /\ (USE_CW fl = true -> CONV fl = false -> spz (p_interferometry P) = true ->
      ~ lag4_noflip P ->
      _check P fl = ([LogWarning "Using stationary phase zone for coda"], OK tt))).
  { intros (H1 & H2 & H3 & H4 & H5 & H6).
    repeat (split; [assumption|]). apply normalize_flags. }
  unfold coda_conv, direct_welch, lag4_noflip, _check, check_lag.
  destruct (USE_CW fl), (CONV fl), (USE_DW fl), (Welch (p_interferometry P)),
    (spz (p_interferometry P)), (flip_nlag (p_interferometry P));
    try case_bool_decide; simpl; repeat split; intros;
    try reflexivity; try (eexists _, _; reflexivity); try (exfalso; tauto);
    try (exfalso; intuition congruence).
Qed.

Lemma check_spec_witness :
  (exists fl, normalize (Ex.with_options "Coda" "Convolution" 2 true false false None) = OK fl /\
     coda_conv fl /\
     _check (Ex.with_options "Coda" "Convolution" 2 true false false None) fl =
       ([], raise (ValueError "NO convolution of coda")))
  /\ (exists fl, normalize (Ex.with_options "Direct Wave" "corr" 2 true false true None) = OK fl /\
     direct_welch (Ex.with_options "Direct Wave" "corr" 2 true false true None) fl /\
     _check (Ex.with_options "Direct Wave" "corr" 2 true false true None) fl =
       ([], raise (ValueError "NOT use Welch's method for direct-wave")))
  /\ (exists fl, normalize (Ex.with_options "dw" "corr" 4 false false false None) = OK fl /\
     lag4_noflip (Ex.with_options "dw" "corr" 4 false false false None) /\
     (_check (Ex.with_options "dw" "corr" 4 false false false None) fl).2 =
       raise (NotImplementedError "4 lags MUST use the symmetric component"))
  /\ (exists fl, normalize (Ex.with_options "dw" "corr" 4 true false false None) = OK fl /\
     (_check (Ex.with_options "dw" "corr" 4 true false false None) fl).2 = OK tt)
  /\ (exists fl, normalize (Ex.with_options "CW" "Correlation" 2 true true true None) = OK fl /\
     _check (Ex.with_options "CW" "Correlation" 2 true true true None) fl =
       ([LogWarning "Using stationary phase zone for coda"], OK tt)).
Proof.
  split; [|split; [|split; [|split]]]; (eexists; split; [reflexivity|]).
  - assert (coda_conv {| USE_CW := true; USE_DW := false; CONV := true; CORR := false |})
      as Hr.
    { apply (proj2 (proj2 (proj2 (proj2 (proj2 (proj2
        (check_spec (Ex.with_options "Coda" "Convolution" 2 true false false None)
           {| USE_CW := true; USE_DW := false; CONV := true; CORR := false |}))))))
        eq_refl).
      split; by_compute. }
    split; [exact Hr|].
    exact (proj1 (check_spec _ _) Hr).
  - assert (direct_welch (Ex.with_options "Direct Wave" "corr" 2 true false true None)
              {| USE_CW := false; USE_DW := true; CONV := false; CORR := true |})
      as Hr by (repeat split; reflexivity).
    split; [exact Hr|].
    exact (proj1 (proj2 (check_spec _ _)) Hr).
  - assert (lag4_noflip (Ex.with_options "dw" "corr" 4 false false false None))
      as Hr by (split; reflexivity).
    split; [exact Hr|].
    refine (proj1 (proj2 (proj2 (proj2 (check_spec _ _)))) Hr _ _).
    + intros [Hc _]. discriminate Hc.
    + intros (_ & _ & Hw). discriminate Hw.
  - refine (proj1 (proj2 (proj2 (proj2 (proj2
      (check_spec (Ex.with_options "dw" "corr" 4 true false false None)
         {| USE_CW := false; USE_DW := true; CONV := false; CORR := true |})))))
      _ _ _).
    + intros [Hc _]. discriminate Hc.
    + intros (_ & _ & Hw). discriminate Hw.
    + intros [_ Hf]. discriminate Hf.
  - refine (proj1 (proj2 (proj2 (proj2 (proj2 (proj2
      (check_spec (Ex.with_options "CW" "Correlation" 2 true true true None)
         {| USE_CW := true; USE_DW := false; CONV := false; CORR := true |}))))))
      eq_refl eq_refl eq_refl _).
    intros [Hn _]. discriminate Hn.
Defined.

(** C7. A wave type that is no spelling of coda or of the direct wave is
    refused with a [ValueError] whose message gives the value. An operator
    that is no spelling of convolution or correlation is not: the message
    is built from [PARAM['interferometry']['type']], so the module raises
    [KeyError('type')] when the parameters have no such entry, and otherwise
    a [ValueError] that gives the value of that entry and not the
    operator. *)
Theorem normalize_unknown_operator :
  normalize (Ex.with_options "bogus" "corr" 2 true false false None) =
    raise (ValueError "Unknown type of signal bogus")
  /\ normalize (Ex.with_options "dw" "bogus" 2 true false false None) =
       raise (KeyError "type")
  /\ normalize (Ex.with_options "dw" "bogus" 2 true false false (Some "xcorr")) =
       raise (ValueError "Unknown operator xcorr")
  /\ Py.contains "bogus" "Unknown operator xcorr" = false.
Proof. repeat split; reflexivity. Qed.

Lemma normalize_wavetype_unknown (P : param) :
  Py.lower (wavetype (p_misc P)) ∉
    ["cw"; "coda"; "coda wave"; "coda-wave"; "dw"; "direct wave"; "direct-wave"] ->
  normalize P = raise (ValueError ("Unknown type of signal " +:+ wavetype (p_misc P))).
Proof.
  intros Hw. unfold normalize, normalize_wavetype, Py.str_in,
    coda_spellings, direct_spellings.
  rewrite !bool_decide_eq_false_2; [reflexivity|..];
    intros Hin; apply Hw; rewrite !elem_of_cons in Hin; rewrite !elem_of_cons; tauto.
Qed.

Lemma normalize_operator_unknown (P : param) :
  Py.lower (wavetype (p_misc P)) ∈
    ["cw"; "coda"; "coda wave"; "coda-wave"; "dw"; "direct wave"; "direct-wave"] ->
  Py.lower (operator (p_interferometry P)) ∉
    ["conv"; "convolution"; "corr"; "correlation"] ->
  normalize P =
    match interferometry_type (p_interferometry P) with
    | Some t => raise (ValueError ("Unknown operator " +:+ t))
    | None => raise (KeyError "type")
    end.
Proof.
  intros Hw Ho. unfold normalize.
  assert (exists r, normalize_wavetype P = OK r) as [[cw dw] ->].
  { unfold normalize_wavetype, Py.str_in, coda_spellings, direct_spellings.
    case_bool_decide as H1; [eauto|]. case_bool_decide as H2; [eauto|].
    exfalso. rewrite !elem_of_cons in Hw. rewrite !elem_of_cons in H1.
    rewrite !elem_of_cons in H2. tauto. }
  unfold normalize_operator, Py.str_in, conv_spellings, corr_spellings. simpl.
  rewrite !bool_decide_eq_false_2
    by (intros Hin; apply Ho; rewrite !elem_of_cons in Hin; rewrite !elem_of_cons; tauto).
  destruct (interferometry_type (p_interferometry P)); reflexivity.
Qed.

(** ** [_meta] *)

(** Successive item assignments [d[k] = v] into a dict. *)
Section Assignments.
Context {R V : Type} (kf : R -> string) (vf : R -> V).
Implicit Types (m : gmap string V) (recs : list R).

Lemma assign_other recs m k :
  (forall r, r ∈ recs -> kf r <> k) -> foldl (assign kf vf) m recs !! k = m !! k.
Proof.
  revert m. induction recs as [|r recs IH]; intros m Hk; [reflexivity|].
  simpl. rewrite IH by (intros r' Hr'; apply Hk; right; exact Hr').
  unfold assign. apply lookup_insert_ne, Hk. left.
Qed.

Lemma assign_last recs m i r :
  recs !! i = Some r ->
  (forall j r', (i < j)%nat -> recs !! j = Some r' -> kf r' <> kf r) ->
  foldl (assign kf vf) m recs !! kf r = Some (vf r).
Proof.
  revert m i. induction recs as [|r0 recs IH]; intros m i Hi Hlast; [discriminate|].
  destruct i as [|i]; simpl in *.
  - injection Hi as ->. rewrite assign_other.
    + unfold assign. apply lookup_insert_eq.
    + intros r' [j Hj]%list_elem_of_lookup. apply (Hlast (S j)); [lia | exact Hj].
  - apply (IH _ i Hi). intros j r' Hj. apply (Hlast (S j)). lia.
Qed.

Lemma last_occurrence recs k :
  k ∈ kf <$> recs ->
  exists i r, recs !! i = Some r /\ kf r = k /\
    forall j r', (i < j)%nat -> recs !! j = Some r' -> kf r' <> k.
Proof.
  induction recs as [|r0 recs IH]; simpl; [intros []%elem_of_nil|].
  intros Hk. destruct (decide (k ∈ kf <$> recs)) as [Hin|Hout].
  - destruct (IH Hin) as (i & r & Hi & Hr & Hlast).
    exists (S i), r. split; [exact Hi|]. split; [exact Hr|].
    intros [|j] r' Hj; [lia|]. apply Hlast. lia.
  - apply elem_of_cons in Hk as [->|Hk]; [|contradiction].
    exists 0%nat, r0. split; [reflexivity|]. split; [reflexivity|].
    intros [|j] r' Hj Hr' Heq; [lia|]. apply Hout. rewrite <- Heq.
    apply list_elem_of_fmap_2, list_elem_of_lookup. eauto.
Qed.

Lemma assign_twice recs m :
  foldl (assign kf vf) (foldl (assign kf vf) m recs) recs = foldl (assign kf vf) m recs.
Proof.
  apply map_eq. intros k.
  destruct (decide (k ∈ kf <$> recs)) as [Hin|Hout].
  - destruct (last_occurrence recs k Hin) as (i & r & Hi & <- & Hlast).
    rewrite !(assign_last recs _ i r Hi Hlast). reflexivity.
  - apply assign_other. intros r Hr <-. apply Hout, list_elem_of_fmap_2, Hr.
Qed.

End Assignments.

Section MetaFacts.
Context {F L : Type} (float : string -> result F).
Implicit Types (c : catalog F L) (r : string * (F * F) * string).

Lemma meta_line_parsed (col_net col_sta col_lon col_lat : Z) (line : string) c r :
  parse_line float col_net col_sta col_lon col_lat line = OK r ->
  meta_line float col_net col_sta col_lon col_lat line c = (store c r, OK tt).
Proof.
  unfold parse_line, meta_line, cbind, lift, modify.
  destruct (Py.getitem (Py.split line) col_sta) as [e|key]; simpl; [discriminate|].
  destruct (Py.getitem (Py.split line) col_lon) as [e|x]; simpl; [discriminate|].
  destruct (float x) as [e|lon]; simpl; [discriminate|].
  destruct (Py.getitem (Py.split line) col_lat) as [e|y]; simpl; [discriminate|].
  destruct (float y) as [e|lat]; simpl; [discriminate|].
  destruct (Py.getitem (Py.split line) col_net) as [e|net]; simpl; [discriminate|].
  intros [= <-]. reflexivity.
Qed.

Lemma meta_lines_parsed (col_net col_sta col_lon col_lat : Z)
    (lines : list string) (recs : list (string * (F * F) * string)) c :
  parsed float col_net col_sta col_lon col_lat lines recs ->
  meta_lines float col_net col_sta col_lon col_lat lines c =
    (foldl store c recs, OK tt).
Proof.
  intros Hp. revert c. induction Hp as [|line r lines recs Hr _ IH]; intros c.
  - reflexivity.
  - simpl. unfold cbind at 1. rewrite (meta_line_parsed _ _ _ _ _ _ _ Hr).
    apply IH.
Qed.

Lemma stored_ALL_STATION (recs : list (string * (F * F) * string)) c :
  ALL_STATION (foldl store c recs) = ALL_STATION c ++ (rec_key <$> recs).
Proof.
  revert c. induction recs as [|r recs IH]; intros c; simpl.
  - rewrite app_nil_r. reflexivity.
  - rewrite IH. simpl. rewrite <- app_assoc. reflexivity.
Qed.

Lemma stored_STA2NET (recs : list (string * (F * F) * string)) c :
  STA2NET (foldl store c recs) =
    foldl (fun m r => <[rec_key r := rec_net r]> m) (STA2NET c) recs.
Proof. revert c. induction recs as [|r recs IH]; intros c; simpl; [|rewrite IH]; reflexivity. Qed.

Lemma stored_STNM2LOLA (recs : list (string * (F * F) * string)) c :
  STNM2LOLA (foldl store c recs) =
    foldl (fun m r => <[rec_key r := rec_lola r]> m) (STNM2LOLA c) recs.
Proof. revert c. induction recs as [|r recs IH]; intros c; simpl; [|rewrite IH]; reflexivity. Qed.

Lemma stored_roles (recs : list (string * (F * F) * string)) c :
  RECEIVER_STATION (foldl store c recs) = RECEIVER_STATION c /\
  RECEIVER_GROUP (foldl store c recs) = RECEIVER_GROUP c /\
  SOURCE_STATION (foldl store c recs) = SOURCE_STATION c.
Proof.
  revert c. induction recs as [|r recs IH]; intros c; simpl; [auto|].
  destruct (IH (store c r)) as (-> & -> & ->). auto.
Qed.

Lemma meta_parsed (P : param) (fs : files L) (col_net col_sta col_lon col_lat : Z)
    (recs : list (string * (F * F) * string)) c :
  parsed float col_net col_sta col_lon col_lat (station_lines fs) recs ->
  _meta float P fs col_net col_sta col_lon col_lat c =
    (set_roles (receiver_col0 fs)
       (if receiver_group (p_fstation P) then Some (receiver_col1 fs) else None)
       (source_col0 fs) (foldl store c recs), OK tt).
Proof.
  intros Hp. unfold _meta, cbind.
  rewrite (meta_lines_parsed _ _ _ _ _ _ _ Hp). reflexivity.
Qed.

End MetaFacts.

(** C9, amended. When every line of the station file holds a station,
    [_meta] appends to [ALL_STATION] the station of each line, in the order
    of the file, so a station named on several lines is listed once per
    line; in [STA2NET] and [STNM2LOLA] the last line of a station decides
    its network and its coordinates. *)
Theorem meta_duplicates {F L : Type} (float : string -> result F) (P : param)
    (fs : files L) (col_net col_sta col_lon col_lat : Z)
    (recs : list (string * (F * F) * string)) (c : catalog F L) :
  parsed float col_net col_sta col_lon col_lat (station_lines fs) recs ->
  exists c',
    _meta float P fs col_net col_sta col_lon col_lat c = (c', OK tt) /\
    ALL_STATION c' = ALL_STATION c ++ (rec_key <$> recs) /\
    (forall i r, recs !! i = Some r ->
       (forall j r', (i < j)%nat -> recs !! j = Some r' -> rec_key r' <> rec_key r) ->
       STA2NET c' !! rec_key r = Some (rec_net r) /\
       STNM2LOLA c' !! rec_key r = Some (rec_lola r)).
Proof.
  intros Hp. eexists. split; [apply meta_parsed, Hp|]. split.
  - simpl. apply stored_ALL_STATION.
  - intros i r Hi Hlast. simpl. rewrite stored_STA2NET, stored_STNM2LOLA. split.
    + apply (assign_last rec_key rec_net recs _ i r Hi Hlast).
    + apply (assign_last rec_key rec_lola recs _ i r Hi Hlast).
Qed.

Lemma meta_duplicates_witness :
  parsed Ex.float_text 0 1 2 3 (station_lines Ex.twice)
    [("A", ("1.0", "2.0"), "N1"); ("B", ("3.0", "4.0"), "N2");
     ("A", ("5.0", "6.0"), "N3")] /\
  exists c' : catalog string Z,
    _meta Ex.float_text Ex.P0 Ex.twice 0 1 2 3 catalog0 = (c', OK tt) /\
    ALL_STATION c' = ["A"; "B"; "A"] /\
    STA2NET c' !! "A" = Some "N3" /\
    STNM2LOLA c' !! "A" = Some ("5.0", "6.0").
Proof.
  assert (parsed Ex.float_text 0 1 2 3 (station_lines Ex.twice)
            [("A", ("1.0", "2.0"), "N1"); ("B", ("3.0", "4.0"), "N2");
             ("A", ("5.0", "6.0"), "N3")]) as Hp
    by (repeat constructor).
  split; [exact Hp|].
  destruct (meta_duplicates Ex.float_text Ex.P0 Ex.twice 0 1 2 3 _ catalog0 Hp)
    as (c' & Hm & Hall & Hlast).
  exists c'. split; [exact Hm|]. split; [exact Hall|].
  apply (Hlast 2%nat ("A", ("5.0", "6.0"), "N3") eq_refl).
  intros [|[|[|j]]] r' Hj Hr'; try lia; discriminate Hr'.
Defined.

(** C9 as stated fails: the station named on the first and on the third
    line is in [ALL_STATION] twice, its first entry is kept, and
    [get_order] places it by that first entry. *)
Lemma meta_duplicates_counterexample :
  exists c' : catalog string Z,
    _meta Ex.float_text Ex.P0 Ex.twice 0 1 2 3 catalog0 = (c', OK tt) /\
    ALL_STATION c' = ["A"; "B"; "A"] /\
    ~ NoDup (ALL_STATION c') /\
    ALL_STATION c' <> ["B"; "A"] /\
    get_order (ALL_STATION c') "B" "A" = OK ("A", "B").
Proof.
  eexists. split.
  { apply (meta_parsed Ex.float_text Ex.P0 Ex.twice 0 1 2 3
             [("A", ("1.0", "2.0"), "N1"); ("B", ("3.0", "4.0"), "N2");
              ("A", ("5.0", "6.0"), "N3")]).
    repeat constructor. }
  simpl. split; [reflexivity|]. split; [|split; [discriminate | reflexivity]].
  intros Hnd. apply NoDup_cons in Hnd as [Hnotin _]. apply Hnotin.
  right. left.
Qed.

(** C8. A second run of [_meta] on the same files does not leave
    [ALL_STATION] as the first run made it: the stations of the file are
    appended once more. The other globals are those of the first run. *)
Theorem meta_twice {F L : Type} (float : string -> result F) (P : param)
    (fs : files L) (col_net col_sta col_lon col_lat : Z)
    (recs : list (string * (F * F) * string)) :
  parsed float col_net col_sta col_lon col_lat (station_lines fs) recs ->
  exists c1 c2 : catalog F L,
    _meta float P fs col_net col_sta col_lon col_lat catalog0 = (c1, OK tt) /\
    _meta float P fs col_net col_sta col_lon col_lat c1 = (c2, OK tt) /\
    ALL_STATION c1 = rec_key <$> recs /\
    ALL_STATION c2 = (rec_key <$> recs) ++ (rec_key <$> recs) /\
    (station_lines fs <> [] -> ALL_STATION c2 <> ALL_STATION c1) /\
    STA2NET c2 = STA2NET c1 /\ STNM2LOLA c2 = STNM2LOLA c1 /\
    RECEIVER_STATION c2 = RECEIVER_STATION c1 /\
    RECEIVER_GROUP c2 = RECEIVER_GROUP c1 /\
    SOURCE_STATION c2 = SOURCE_STATION c1.
Proof.
  intros Hp. eexists _, _.
  split; [apply meta_parsed, Hp|]. split; [apply meta_parsed, Hp|].
  simpl. rewrite !stored_ALL_STATION, !stored_STA2NET, !stored_STNM2LOLA. simpl.
  rewrite !stored_ALL_STATION, !stored_STA2NET, !stored_STNM2LOLA. simpl.
  repeat split.
  - intros Hne Heq. apply (f_equal length) in Heq.
    rewrite length_app, !length_fmap in Heq.
    apply Forall2_length in Hp. destruct (station_lines fs); [contradiction|].
    simpl in Hp. lia.
  - apply (assign_twice rec_key rec_net).
  - apply (assign_twice rec_key rec_lola).
Qed.

Lemma meta_twice_witness :
  parsed Ex.float_text 0 1 2 3 (station_lines Ex.one_line)
    [("A04D", ("-120.5", "47.1"), "TA")] /\
  exists c1 c2 : catalog string Z,
    _meta Ex.float_text Ex.P0 Ex.one_line 0 1 2 3 catalog0 = (c1, OK tt) /\
    _meta Ex.float_text Ex.P0 Ex.one_line 0 1 2 3 c1 = (c2, OK tt) /\
    ALL_STATION c1 = ["A04D"] /\
    ALL_STATION c2 = ["A04D"; "A04D"] /\
    RECEIVER_GROUP c2 = RECEIVER_GROUP c1.
Proof.
  assert (parsed Ex.float_text 0 1 2 3 (station_lines Ex.one_line)
            [("A04D", ("-120.5", "47.1"), "TA")]) as Hp
    by (repeat constructor).
  split; [exact Hp|].
  destruct (meta_twice Ex.float_text Ex.P0 Ex.one_line 0 1 2 3 _ Hp)
    as (c1 & c2 & H1 & H2 & A1 & A2 & _ & _ & _ & _ & G & _).
  exists c1, c2. repeat split; assumption.
Defined.

(** * Further properties *)

(** ** The order [get_order] defines *)

Section GetOrderMore.
Context {A : Type} `{EqDecision A} `{Py.Repr A}.
Implicit Types (lst : list A).

Lemma get_order_OK_inv lst a b p :
  get_order lst a b = OK p ->
  exists i j, index_of lst a i /\ index_of lst b j /\
    p = if bool_decide (i <= j)%nat then (a, b) else (b, a).
Proof.
  unfold get_order, Py.index.
  destruct (Py.find_index a lst) as [i|] eqn:Hi; simpl; [|discriminate].
  destruct (Py.find_index b lst) as [j|] eqn:Hj; simpl; [|discriminate].
  apply find_index_Some in Hi, Hj. intros Hp. exists i, j.
  split; [exact Hi|]. split; [exact Hj|].
  destruct (bool_decide (i <= j)%nat); injection Hp as <-; reflexivity.
Qed.

Lemma index_of_unique lst x i j : index_of lst x i -> index_of lst x j -> i = j.
Proof.
  intros [Hi Hfi] [Hj Hfj].
  destruct (Nat.lt_trichotomy i j) as [Hlt|[Heq|Hgt]]; [|exact Heq|].
  - exfalso. apply (Hfj i Hlt Hi).
  - exfalso. apply (Hfi j Hgt Hj).
Qed.

Lemma get_order_first_iff lst a b i j :
  index_of lst a i -> index_of lst b j ->
  (get_order lst a b = OK (a, b) <-> (i <= j)%nat).
Proof.
  intros Hi Hj. rewrite (get_order_indices lst a b i j Hi Hj).
  case_bool_decide as Hle; split; intros Hx; try done.
  - injection Hx as -> _. rewrite (index_of_unique _ _ _ _ Hi Hj). constructor.
Qed.

End GetOrderMore.

(** X1. The pair [get_order] returns is canonical: it holds the two
    arguments, the first at an index not after the second's, and ordering
    it again, in either order of its members, returns it unchanged. *)
Theorem get_order_canonical {A : Type} `{EqDecision A} `{Py.Repr A}
    (lst : list A) (a b src rec : A) :
  get_order lst a b = OK (src, rec) ->
  ((src, rec) = (a, b) \/ (src, rec) = (b, a))
  /\ (exists i j, index_of lst src i /\ index_of lst rec j /\ (i <= j)%nat)
  /\ get_order lst src rec = OK (src, rec)
  /\ get_order lst rec src = OK (src, rec).
Proof.
  intros Ho. destruct (get_order_OK_inv _ _ _ _ Ho) as (i & j & Hi & Hj & Hp).
  assert (exists i' j', index_of lst src i' /\ index_of lst rec j' /\ (i' <= j')%nat)
    as (i' & j' & Hi' & Hj' & Hle).
  { case_bool_decide as Hle; injection Hp as -> ->.
    - exists i, j. auto.
    - exists j, i. split; [exact Hj|]. split; [exact Hi|]. lia. }
  split; [case_bool_decide; injection Hp as -> ->; auto|].
  split; [exists i', j'; auto|].
  assert (get_order lst src rec = OK (src, rec)) as Hsr
    by (apply (get_order_first_iff lst src rec i' j'); assumption).
  split; [exact Hsr|].
  rewrite <- Hsr. apply get_order_comm.
  - apply list_elem_of_lookup. exists j'. apply Hj'.
  - apply list_elem_of_lookup. exists i'. apply Hi'.
Qed.

Lemma get_order_canonical_witness :
  get_order ["STA1"; "STA2"; "STA3"] "STA3" "STA2" = OK ("STA2", "STA3") /\
  get_order ["STA1"; "STA2"; "STA3"] "STA2" "STA3" = OK ("STA2", "STA3").
Proof.
  split; [reflexivity|].
  exact (proj1 (proj2 (proj2 (get_order_canonical ["STA1"; "STA2"; "STA3"]
           "STA3" "STA2" "STA2" "STA3" eq_refl)))).
Defined.

(** X2. On the members of [lst], "[get_order] puts [a] first" is a total
    order: one of the two comes first, both come first only when they are
    the same station, and it is transitive over three stations. *)
Theorem get_order_total_order {A : Type} `{EqDecision A} `{Py.Repr A}
    (lst : list A) (a b c : A) :
  (a ∈ lst -> b ∈ lst ->
   get_order lst a b = OK (a, b) \/ get_order lst b a = OK (b, a))
  /\ (get_order lst a b = OK (a, b) -> get_order lst b a = OK (b, a) -> a = b)
  /\ (get_order lst a b = OK (a, b) -> get_order lst b c = OK (b, c) ->
      get_order lst a c = OK (a, c)).
Proof.
  split; [|split].
  - intros [i Hi]%find_index_elem [j Hj]%find_index_elem.
    apply find_index_Some in Hi, Hj.
    rewrite (get_order_first_iff lst a b i j Hi Hj),
            (get_order_first_iff lst b a j i Hj Hi). lia.
  - intros Hab Hba.
    destruct (get_order_OK_inv _ _ _ _ Hab) as (i & j & Hi & Hj & _).
    apply (get_order_first_iff lst a b i j Hi Hj) in Hab.
    apply (get_order_first_iff lst b a j i Hj Hi) in Hba.
    assert (i = j) as -> by lia. exact (index_of_inj _ _ _ _ Hi Hj).
  - intros Hab Hbc.
    destruct (get_order_OK_inv _ _ _ _ Hab) as (i & j & Hi & Hj & _).
    destruct (get_order_OK_inv _ _ _ _ Hbc) as (j' & k & Hj' & Hk & _).
    pose proof (index_of_unique _ _ _ _ Hj Hj') as <-.
    apply (get_order_first_iff lst a b i j Hi Hj) in Hab.
    apply (get_order_first_iff lst b c j k Hj Hk) in Hbc.
    apply (get_order_first_iff lst a c i k Hi Hk). lia.
Qed.

Lemma get_order_total_order_witness :
  get_order ["STA1"; "STA2"; "STA3"] "STA1" "STA2" = OK ("STA1", "STA2") /\
  get_order ["STA1"; "STA2"; "STA3"] "STA2" "STA3" = OK ("STA2", "STA3") /\
  get_order ["STA1"; "STA2"; "STA3"] "STA1" "STA3" = OK ("STA1", "STA3").
Proof.
  split; [reflexivity|]. split; [reflexivity|].
  exact (proj2 (proj2 (get_order_total_order ["STA1"; "STA2"; "STA3"]
           "STA1" "STA2" "STA3")) eq_refl eq_refl).
Defined.

(** ** When [get_fnm] returns and when it raises *)









(** ** The normalisation of the wave type and of the operator *)

Lemma normalize_OK_iff (P : param) (fl : flags) :
  normalize P = OK fl <->
  (Py.lower (wavetype (p_misc P)) ∈ coda_spellings \/
   Py.lower (wavetype (p_misc P)) ∈ direct_spellings) /\
  (Py.lower (operator (p_interferometry P)) ∈ conv_spellings \/
   Py.lower (operator (p_interferometry P)) ∈ corr_spellings) /\
  fl = {| USE_CW := bool_decide (Py.lower (wavetype (p_misc P)) ∈ coda_spellings);
          USE_DW := negb (bool_decide (Py.lower (wavetype (p_misc P)) ∈ coda_spellings));
          CONV := bool_decide (Py.lower (operator (p_interferometry P)) ∈ conv_spellings);
          CORR := negb (bool_decide
                          (Py.lower (operator (p_interferometry P)) ∈ conv_spellings)) |}.
Proof.
  unfold normalize, normalize_wavetype, normalize_operator, Py.str_in.
  case_bool_decide as Hc; [|case_bool_decide as Hd]; simpl;
    (case_bool_decide as Hv; [|try case_bool_decide as Hr]; simpl);
    try (destruct (interferometry_type (p_interferometry P)));
    (split;
     [first [discriminate | intros [= <-]; repeat split; tauto]
     |intros (Hw & Ho & ->); first [reflexivity | exfalso; tauto]]).
Qed.

(** X5. The normalisation succeeds exactly when the wave type, in lower
    case, is one of the seven spellings and the operator, in lower case,
    one of the four; the flags are then fixed by the spellings, with
    exactly one of [USE_CW], [USE_DW] and exactly one of [CONV], [CORR]
    set. The wave type is looked at first: when it is no spelling, the
    [ValueError] gives it as written, whatever the operator is. *)
Theorem normalize_spec (P : param) (fl : flags) :
  let w := wavetype (p_misc P) in
  let o := operator (p_interferometry P) in
  (normalize P = OK fl <->
   (Py.lower w ∈ coda_spellings \/ Py.lower w ∈ direct_spellings) /\
   (Py.lower o ∈ conv_spellings \/ Py.lower o ∈ corr_spellings) /\
   fl = {| USE_CW := bool_decide (Py.lower w ∈ coda_spellings);
           USE_DW := negb (bool_decide (Py.lower w ∈ coda_spellings));
           CONV := bool_decide (Py.lower o ∈ conv_spellings);
           CORR := negb (bool_decide (Py.lower o ∈ conv_spellings)) |})
  /\ (normalize P = OK fl ->
      USE_DW fl = negb (USE_CW fl) /\ CORR fl = negb (CONV fl))
  /\ (~ (Py.lower w ∈ coda_spellings \/ Py.lower w ∈ direct_spellings) ->
      normalize P = raise (ValueError ("Unknown type of signal " +:+ w))).
Proof.
  intros w o. split; [apply normalize_OK_iff|]. split.
  - intros Hn. apply normalize_OK_iff in Hn as (_ & _ & ->). split; reflexivity.
  - intros Hw. subst w. unfold normalize, normalize_wavetype, Py.str_in.
    rewrite !bool_decide_eq_false_2 by tauto. reflexivity.
Qed.

Lemma normalize_spec_witness :
  normalize (Ex.with_options "Coda-Wave" "CORR" 2 true false false None) =
    OK {| USE_CW := true; USE_DW := false; CONV := false; CORR := true |}
  /\ normalize (Ex.with_options "surface" "nothing" 2 true false false None) =
       raise (ValueError "Unknown type of signal surface").
Proof.
  split.
  - apply (proj2 (proj1 (normalize_spec
             (Ex.with_options "Coda-Wave" "CORR" 2 true false false None) _))).
    split; [left; by_compute|]. split; [right; by_compute|]. reflexivity.
  - apply (proj2 (proj2 (normalize_spec
             (Ex.with_options "surface" "nothing" 2 true false false None) flags0))).
    intros [Hc|Hd]; revert Hc || revert Hd;
      apply (bool_decide_unpack (_ ∉ _)); vm_compute; exact I.
Defined.

(** ** [group_sta]: the order of the set, and empty groups *)

Lemma filter_ext_in {A : Type} (P Q : A -> Prop)
    `{!forall x, Decision (P x)} `{!forall x, Decision (Q x)} (l : list A) :
  (forall x, x ∈ l -> (P x <-> Q x)) -> filter P l = filter Q l.
Proof.
  induction l as [|x l IH]; intros Hext; [reflexivity|].
  rewrite !filter_cons.
  rewrite IH by (intros y Hy; apply Hext; right; exact Hy).
  assert (P x <-> Q x) as Hx by (apply Hext; left).
  destruct (decide (P x)) as [HP|HP], (decide (Q x)) as [HQ|HQ];
    try reflexivity; exfalso; tauto.
Qed.

Section GroupStaMore.
Context {L : Type} `{EqDecision L}.
Implicit Types (lst : list string) (lnum : list L).

Lemma with_other_label (n0 n1 : L) lst lnum :
  n0 <> n1 -> (forall l, l ∈ lnum <-> l = n0 \/ l = n1) ->
  with_label n1 lst lnum = without_label n0 lst lnum /\
  without_label n1 lst lnum = with_label n0 lst lnum.
Proof.
  intros Hne Hall. unfold with_label, without_label.
  split; f_equal; apply filter_ext_in; intros [st l] Hin; simpl;
    apply elem_of_zip_r, Hall in Hin; destruct Hin as [->| ->];
    split; intros Hx; congruence || (try tauto).
Qed.

Lemma with_label_elem (n0 : L) lst lnum i st :
  lst !! i = Some st -> lnum !! i = Some n0 -> st ∈ with_label n0 lst lnum.
Proof.
  intros Hs Hl. unfold with_label.
  apply (list_elem_of_fmap_2' fst _ (st, n0)); [|reflexivity].
  apply list_elem_of_filter. split; [reflexivity|].
  apply list_elem_of_lookup. exists i. apply lookup_zip_with_Some. eauto.
Qed.

End GroupStaMore.

Section GroupStaOrder.
Context {L : Type} `{EqDecision L}.
Variable set_list : list L -> list L.
Hypothesis set_list_NoDup : forall l, NoDup (set_list l).
Hypothesis set_list_elem : forall l x, x ∈ set_list l <-> x ∈ l.

Lemma group_sta_two (lst : list string) (lnum : list L) (n0 n1 : L) :
  set_list lnum = [n0; n1] -> (length lst <= length lnum)%nat ->
  group_sta set_list lst lnum =
    OK (with_label n0 lst lnum, without_label n0 lst lnum).
Proof.
  intros Hs Hlen. unfold group_sta. rewrite Hs. simpl.
  rewrite (group_loop_covered lnum _ n0) by (done || (simpl; lia)).
  reflexivity.
Qed.

Lemma group_sta_OK_inv (lst : list string) (lnum : list L) g0 g1 :
  group_sta set_list lst lnum = OK (g0, g1) ->
  (length lst <= length lnum)%nat /\
  exists n0 n1, set_list lnum = [n0; n1] /\ n0 <> n1 /\
    (forall l, l ∈ lnum <-> l = n0 \/ l = n1) /\
    g0 = with_label n0 lst lnum /\ g1 = without_label n0 lst lnum.
Proof.
  intros Hg.
  assert (length (set_list lnum) = 2%nat) as Hc.
  { unfold group_sta in Hg. case_bool_decide as Hn; [discriminate|]. lia. }
  destruct (two_labels set_list set_list_NoDup set_list_elem lnum Hc)
    as (n0 & n1 & Hs & Hne & Hall).
  destruct (decide (length lst <= length lnum)%nat) as [Hle|Hgt].
  - split; [exact Hle|]. exists n0, n1.
    rewrite (group_sta_two lst lnum n0 n1 Hs Hle) in Hg.
    injection Hg as <- <-. auto.
  - exfalso. unfold group_sta in Hg. rewrite Hs in Hg. simpl in Hg.
    rewrite (group_loop_short lnum _ n0) in Hg by (done || (simpl; lia)).
    discriminate.
Qed.

End GroupStaOrder.

(** X6. The iteration order of [set(lnum)] decides which of the two groups
    comes first and nothing else: when [group_sta] returns [(g0, g1)] under
    one order of the set, it returns [(g0, g1)] or [(g1, g0)] under any
    other. *)
Theorem group_sta_set_order {L : Type} `{EqDecision L}
    (set1 set2 : list L -> list L)
    (set1_NoDup : forall l, NoDup (set1 l))
    (set1_elem : forall l x, x ∈ set1 l <-> x ∈ l)
    (set2_NoDup : forall l, NoDup (set2 l))
    (set2_elem : forall l x, x ∈ set2 l <-> x ∈ l)
    (lst : list string) (lnum : list L) (g0 g1 : list string) :
  group_sta set1 lst lnum = OK (g0, g1) ->
  group_sta set2 lst lnum = OK (g0, g1) \/ group_sta set2 lst lnum = OK (g1, g0).
Proof.
  intros Hg.
  destruct (group_sta_OK_inv set1 set1_NoDup set1_elem _ _ _ _ Hg)
    as (Hlen & n0 & n1 & Hs & Hne & Hall & -> & ->).
  assert (length (set2 lnum) = 2%nat) as Hc.
  { rewrite (distinct_count set2 set2_NoDup set2_elem),
      <- (distinct_count set1 set1_NoDup set1_elem), Hs. reflexivity. }
  destruct (two_labels set2 set2_NoDup set2_elem lnum Hc)
    as (m0 & m1 & Hs2 & Hne2 & Hall2).
  rewrite (group_sta_two set2 lst lnum m0 m1 Hs2 Hlen).
  assert (m0 = n0 \/ m0 = n1) as [->| ->] by (apply Hall, Hall2; auto).
  - left. reflexivity.
  - right. destruct (with_other_label n0 n1 lst lnum Hne Hall) as [-> ->].
    reflexivity.
Qed.

Lemma reverse_dups_NoDup {A : Type} `{EqDecision A} (l : list A) :
  NoDup (reverse (remove_dups l)).
Proof. rewrite reverse_Permutation. apply NoDup_remove_dups. Qed.

Lemma reverse_dups_elem {A : Type} `{EqDecision A} (l : list A) (x : A) :
  x ∈ reverse (remove_dups l) <-> x ∈ l.
Proof. rewrite elem_of_reverse. apply elem_of_remove_dups. Qed.

Lemma group_sta_set_order_witness :
  group_sta remove_dups ["A"; "B"; "C"] [2; 1; 2] = OK (["B"], ["A"; "C"]) /\
  group_sta (fun l => reverse (remove_dups l)) ["A"; "B"; "C"] [2; 1; 2] =
    OK (["A"; "C"], ["B"]).
Proof.
  assert (group_sta remove_dups ["A"; "B"; "C"] [2; 1; 2] = OK (["B"], ["A"; "C"]))
    as Hg by reflexivity.
  split; [exact Hg|].
  destruct (group_sta_set_order remove_dups (fun l => reverse (remove_dups l))
              NoDup_remove_dups elem_of_remove_dups
              reverse_dups_NoDup reverse_dups_elem
              ["A"; "B"; "C"] [2; 1; 2] ["B"] ["A"; "C"] Hg) as [Hsame|Hswap].
  - vm_compute in Hsame. discriminate Hsame.
  - exact Hswap.
Defined.

(** X7. With one label for each station and exactly two distinct labels,
    neither group is empty, and the two groups together have as many
    stations as [lst]. *)
Theorem group_sta_nonempty {L : Type} `{EqDecision L} (set_list : list L -> list L)
    (set_list_NoDup : forall l, NoDup (set_list l))
    (set_list_elem : forall l x, x ∈ set_list l <-> x ∈ l)
    (lst : list string) (lnum : list L) :
  length lst = length lnum -> length (remove_dups lnum) = 2%nat ->
  exists g0 g1, group_sta set_list lst lnum = OK (g0, g1) /\
    g0 <> [] /\ g1 <> [] /\ (length g0 + length g1 = length lst)%nat.
Proof.
  intros Hlen Hc. rewrite <- (distinct_count set_list) in Hc by assumption.
  destruct (two_labels set_list set_list_NoDup set_list_elem lnum Hc)
    as (n0 & n1 & Hs & Hne & Hall).
  eexists _, _. split; [apply (group_sta_two set_list lst lnum n0 n1 Hs); lia|].
  assert (forall n, n ∈ lnum -> exists st, st ∈ with_label n lst lnum) as Hsome.
  { intros n [i Hi]%list_elem_of_lookup.
    destruct (lookup_lt_is_Some_2 lst i) as [st Hst].
    { rewrite Hlen. apply lookup_lt_Some in Hi. exact Hi. }
    exists st. apply (with_label_elem n lst lnum i st Hst Hi). }
  split; [|split].
  - destruct (Hsome n0) as [st Hst]; [apply Hall; auto|].
    intros Heq. rewrite Heq in Hst. apply elem_of_nil in Hst. exact Hst.
  - destruct (Hsome n1) as [st Hst]; [apply Hall; auto|].
    destruct (with_other_label n0 n1 lst lnum Hne Hall) as [Hw _].
    rewrite Hw in Hst.
    intros Heq. rewrite Heq in Hst. apply elem_of_nil in Hst. exact Hst.
  - rewrite <- length_app. apply Permutation_length, groups_permutation. lia.
Qed.

Lemma group_sta_nonempty_witness :
  length ["A"; "B"; "C"] = length [2; 1; 2] /\
  length (remove_dups [2; 1; 2]) = 2%nat /\
  exists g0 g1, group_sta remove_dups ["A"; "B"; "C"] [2; 1; 2] = OK (g0, g1) /\
    g0 <> [] /\ g1 <> [].
Proof.
  split; [reflexivity|]. split; [reflexivity|].
  destruct (group_sta_nonempty remove_dups NoDup_remove_dups elem_of_remove_dups
              ["A"; "B"; "C"] [2; 1; 2] ltac:(reflexivity) ltac:(reflexivity))
    as (g0 & g1 & Hg & H0 & H1 & _).
  exists g0, g1. auto.
Defined.

(** ** [get_pred_pv]: the two directions, the keys, explicit keys *)

Lemma app_char_inj (c : ascii) (a a' b b' : string) :
  has_char c a = false -> has_char c a' = false ->
  a +:+ String c b = a' +:+ String c b' -> a = a' /\ b = b'.
Proof.
  revert a'. induction a as [|x a IH]; intros [|x' a'] Ha Ha' Heq.
  - injection Heq as <-. auto.
  - exfalso. injection Heq as <- _. simpl in Ha'.
    rewrite bool_decide_eq_true_2 in Ha' by reflexivity. discriminate.
  - exfalso. injection Heq as -> _. simpl in Ha.
    rewrite bool_decide_eq_true_2 in Ha by reflexivity. discriminate.
  - injection Heq as -> Heq. simpl in Ha, Ha'.
    apply orb_false_iff in Ha as [_ Ha]. apply orb_false_iff in Ha' as [_ Ha'].
    destruct (IH a' Ha Ha' Heq) as [-> ->]. auto.
Qed.

(** X8. [get_pred_pv] gives the same curve for a pair of stations in
    either direction, unless the table holds both keys of the pair with
    curves that differ as arrays; with both keys in the table, each
    direction gets the curve of its own forward key. *)
Theorem get_pred_pv_direction {F : Type} (D : dispersion F) (n1 s1 n2 s2 : string) :
  ((forall m cf cr, PRED_PV D = Some m ->
      m !! forward_key n1 s1 n2 s2 = Some cf ->
      m !! reversed_key n1 s1 n2 s2 = Some cr ->
      (asarray cf.1, asarray cf.2) = (asarray cr.1, asarray cr.2)) ->
   get_pred_pv D n1 s1 n2 s2 None None = get_pred_pv D n2 s2 n1 s1 None None)
  /\ (forall m cf cr, PRED_PV D = Some m ->
        m !! forward_key n1 s1 n2 s2 = Some cf ->
        m !! reversed_key n1 s1 n2 s2 = Some cr ->
        get_pred_pv D n1 s1 n2 s2 None None = (asarray cf.1, asarray cf.2) /\
        get_pred_pv D n2 s2 n1 s1 None None = (asarray cr.1, asarray cr.2)).
Proof.
  split.
  - intros Hsame. destruct (PRED_PV D) as [m|] eqn:HD.
    + destruct (decide (m = ∅)) as [->|Hm].
      { rewrite !get_pred_pv_absent by auto. reflexivity. }
      destruct (m !! forward_key n1 s1 n2 s2) as [cf|] eqn:Hf;
        destruct (m !! reversed_key n1 s1 n2 s2) as [cr|] eqn:Hr.
      * rewrite (get_pred_pv_forward D m n1 s1 n2 s2 cf HD Hf).
        rewrite (get_pred_pv_forward D m n2 s2 n1 s1 cr HD Hr).
        apply (Hsame m); auto.
      * rewrite (get_pred_pv_forward D m n1 s1 n2 s2 cf HD Hf).
        rewrite (get_pred_pv_reversed D m n2 s2 n1 s1 cf HD Hr Hf). reflexivity.
      * rewrite (get_pred_pv_reversed D m n1 s1 n2 s2 cr HD Hf Hr).
        rewrite (get_pred_pv_forward D m n2 s2 n1 s1 cr HD Hr). reflexivity.
      * rewrite (get_pred_pv_neither D m n1 s1 n2 s2 HD Hm Hf Hr).
        rewrite (get_pred_pv_neither D m n2 s2 n1 s1 HD Hm Hr Hf). reflexivity.
    + rewrite !get_pred_pv_absent by auto. reflexivity.
  - intros m cf cr HD Hf Hr. split.
    + apply (get_pred_pv_forward D m); assumption.
    + apply (get_pred_pv_forward D m); assumption.
Qed.

Lemma get_pred_pv_direction_witness :
  get_pred_pv Ex.disp_one "NETA" "S1" "NETB" "S2" None None =
  get_pred_pv Ex.disp_one "NETB" "S2" "NETA" "S1" None None
  /\ (get_pred_pv Ex.disp_both "NETA" "S1" "NETB" "S2" None None = Ex.curveX /\
      get_pred_pv Ex.disp_both "NETB" "S2" "NETA" "S1" None None = Ex.curveY).
Proof.
  split.
  - apply (proj1 (get_pred_pv_direction Ex.disp_one "NETA" "S1" "NETB" "S2")).
    intros m cf cr [= <-] _ Hr. vm_compute in Hr. discriminate Hr.
  - refine (proj2 (get_pred_pv_direction Ex.disp_both "NETA" "S1" "NETB" "S2")
              _ Ex.curveX Ex.curveY eq_refl _ _); vm_compute; reflexivity.
Defined.

(** X9. The pair key identifies the pair when the first three of its four
    parts hold no underscore: equal keys then come from equal networks and
    stations. Parts with underscores can share a key. *)
Theorem forward_key_inj (n1 s1 n2 s2 n1' s1' n2' s2' : string) :
  (has_char "_" n1 = false -> has_char "_" s1 = false -> has_char "_" n2 = false ->
   has_char "_" n1' = false -> has_char "_" s1' = false -> has_char "_" n2' = false ->
   forward_key n1 s1 n2 s2 = forward_key n1' s1' n2' s2' ->
   n1 = n1' /\ s1 = s1' /\ n2 = n2' /\ s2 = s2')
  /\ forward_key "XA_B" "S1" "XC" "S2" = forward_key "XA" "B_S1" "XC" "S2".
Proof.
  split; [|reflexivity].
  intros H1 H2 H3 H1' H2' H3'. rewrite !forward_key_text.
  change (n1 +:+ String "_" (s1 +:+ String "_" (n2 +:+ String "_" s2)) =
          n1' +:+ String "_" (s1' +:+ String "_" (n2' +:+ String "_" s2')) ->
          n1 = n1' /\ s1 = s1' /\ n2 = n2' /\ s2 = s2').
  intros Heq.
  apply app_char_inj in Heq as [-> Heq]; [|assumption..].
  apply app_char_inj in Heq as [-> Heq]; [|assumption..].
  apply app_char_inj in Heq as [-> ->]; [|assumption..].
  auto.
Qed.

Lemma forward_key_inj_witness :
  forward_key "NETA" "S1" "NETB" "S_2" = forward_key "NETA" "S1" "NETB" "S_2" /\
  "S_2" = "S_2".
Proof.
  split; [reflexivity|].
  apply (proj1 (forward_key_inj "NETA" "S1" "NETB" "S_2" "NETA" "S1" "NETB" "S_2"));
    reflexivity.
Defined.

(** X10. With an explicit [pair] key the networks and stations are not
    read: the curve under [pair] is returned when the table has it;
    otherwise the curve under [pair_r] when one is given and the table
    has it; with [pair] alone ([pair_r=None]) and [pair] not in the table
    the result is the global curve, as stored, whatever the table holds
    for the stations. *)
Theorem get_pred_pv_explicit {F : Type} (D : dispersion F) (n1 s1 n2 s2 k : string)
    (m : gmap string (pyseq F * pyseq F)) :
  PRED_PV D = Some m -> m <> ∅ ->
  (forall c pair_r, m !! k = Some c ->
     get_pred_pv D n1 s1 n2 s2 (Some k) pair_r = (asarray c.1, asarray c.2))
  /\ (forall kr c, m !! k = None -> m !! kr = Some c ->
      get_pred_pv D n1 s1 n2 s2 (Some k) (Some kr) = (asarray c.1, asarray c.2))
  /\ (m !! k = None ->
      get_pred_pv D n1 s1 n2 s2 (Some k) None = (PHPRPER D, PHPRVEL D)).
Proof.
  intros HD Hm. unfold get_pred_pv. rewrite HD, (truthy_table_Some _ Hm).
  split; [|split].
  - intros c pair_r Hk. rewrite (key_in_Some _ _ _ Hk). simpl. rewrite Hk. reflexivity.
  - intros kr c Hk Hkr. rewrite (key_in_None _ _ Hk), (key_in_Some _ _ _ Hkr).
    simpl. rewrite Hkr. reflexivity.
  - intros Hk. rewrite (key_in_None _ _ Hk). reflexivity.
Qed.

Lemma get_pred_pv_explicit_witness :
  get_pred_pv Ex.disp_one "NETA" "S1" "NETB" "S2" (Some "NETA_S1_NETB_S2") None =
    Ex.curveX
  /\ get_pred_pv Ex.disp_one "NETA" "S1" "NETB" "S2" (Some "NETB_S2_NETA_S1") None =
       (PyList [4; 8], PyList [30; 32]).
Proof.
  assert (PRED_PV Ex.disp_one = Some {[ "NETA_S1_NETB_S2" := Ex.curveX ]}) as HD
    by reflexivity.
  assert (({[ "NETA_S1_NETB_S2" := Ex.curveX ]} : gmap string (pyseq Z * pyseq Z)) <> ∅)
    as Hm.
  { intros Hm. apply (f_equal (fun m => m !! "NETA_S1_NETB_S2")) in Hm.
    vm_compute in Hm. discriminate. }
  split.
  - refine (proj1 (get_pred_pv_explicit Ex.disp_one "NETA" "S1" "NETB" "S2"
              "NETA_S1_NETB_S2" _ HD Hm) Ex.curveX None _).
    vm_compute. reflexivity.
  - refine (proj2 (proj2 (get_pred_pv_explicit Ex.disp_one "NETA" "S1" "NETB" "S2"
              "NETB_S2_NETA_S1" _ HD Hm)) _).
    vm_compute. reflexivity.
Defined.

(** ** [_meta]: what a load keeps, and what a bad line leaves *)

Lemma assign_is_Some {R V : Type} (kf : R -> string) (vf : R -> V)
    (recs : list R) (m : gmap string V) (k : string) :
  is_Some (foldl (assign kf vf) m recs !! k) <->
  is_Some (m !! k) \/ k ∈ kf <$> recs.
Proof.
  revert m. induction recs as [|r recs IH]; intros m; simpl.
  - rewrite elem_of_nil. tauto.
  - rewrite IH. unfold assign. rewrite lookup_insert_is_Some, elem_of_cons.
    destruct (decide (kf r = k)); intuition congruence.
Qed.

Section MetaMore.
Context {F L : Type} (float : string -> result F).
Implicit Types (c : catalog F L) (r : string * (F * F) * string).

Lemma stored_consistent (recs : list (string * (F * F) * string)) c :
  catalog_consistent c -> catalog_consistent (foldl store c recs).
Proof.
  intros Hc k. destruct (Hc k) as [Hn Hl].
  rewrite stored_ALL_STATION, stored_STA2NET, stored_STNM2LOLA.
  pose proof (assign_is_Some rec_key rec_net recs (STA2NET c) k) as H1.
  pose proof (assign_is_Some rec_key rec_lola recs (STNM2LOLA c) k) as H2.
  unfold assign in H1, H2. rewrite H1, H2, elem_of_app. tauto.
Qed.

Lemma meta_line_failed (col_net col_sta col_lon col_lat : Z) (line : string) c e :
  parse_line float col_net col_sta col_lon col_lat line = raise e ->
  exists c', meta_line float col_net col_sta col_lon col_lat line c = (c', raise e) /\
    ALL_STATION c' = ALL_STATION c /\ STA2NET c' = STA2NET c /\
    RECEIVER_STATION c' = RECEIVER_STATION c /\
    RECEIVER_GROUP c' = RECEIVER_GROUP c /\
    SOURCE_STATION c' = SOURCE_STATION c.
Proof.
  unfold parse_line, meta_line, cbind, lift, modify.
  destruct (Py.getitem (Py.split line) col_sta) as [e0|key]; simpl;
    [intros [= <-]; eexists; repeat split; reflexivity|].
  destruct (Py.getitem (Py.split line) col_lon) as [e0|x]; simpl;
    [intros [= <-]; eexists; repeat split; reflexivity|].
  destruct (float x) as [e0|lon]; simpl;
    [intros [= <-]; eexists; repeat split; reflexivity|].
  destruct (Py.getitem (Py.split line) col_lat) as [e0|y]; simpl;
    [intros [= <-]; eexists; repeat split; reflexivity|].
  destruct (float y) as [e0|lat]; simpl;
    [intros [= <-]; eexists; repeat split; reflexivity|].
  destruct (Py.getitem (Py.split line) col_net) as [e0|net]; simpl;
    [intros [= <-]; eexists; repeat split; reflexivity|].
  discriminate.
Qed.

Lemma meta_lines_failed (col_net col_sta col_lon col_lat : Z)
    (good rest : list string) (bad : string)
    (recs : list (string * (F * F) * string)) c e :
  parsed float col_net col_sta col_lon col_lat good recs ->
  parse_line float col_net col_sta col_lon col_lat bad = raise e ->
  exists c',
    meta_lines float col_net col_sta col_lon col_lat (good ++ bad :: rest) c =
      (c', raise e) /\
    ALL_STATION c' = ALL_STATION c ++ (rec_key <$> recs) /\
    STA2NET c' = foldl (assign rec_key rec_net) (STA2NET c) recs /\
    RECEIVER_STATION c' = RECEIVER_STATION c /\
    RECEIVER_GROUP c' = RECEIVER_GROUP c /\
    SOURCE_STATION c' = SOURCE_STATION c.
Proof.
  intros Hp Hbad. revert c. induction Hp as [|line r good recs Hr _ IH]; intros c.
  - simpl. unfold cbind at 1.
    destruct (meta_line_failed col_net col_sta col_lon col_lat bad c e Hbad)
      as (c' & -> & HA & HN & HR). exists c'. rewrite app_nil_r. auto.
  - simpl. unfold cbind at 1. rewrite (meta_line_parsed _ _ _ _ _ _ c r Hr).
    destruct (IH (store c r)) as (c' & -> & HA & HN & HR).
    exists c'. split; [reflexivity|]. rewrite HA, HN. simpl.
    rewrite <- app_assoc. auto.
Qed.

End MetaMore.

(** X11. A load keeps the catalog consistent: when the stations of
    [ALL_STATION] are exactly the keys of [STA2NET] and of [STNM2LOLA]
    before [_meta], as in the module as written, they are so after it. *)
Theorem meta_consistent {F L : Type} (float : string -> result F) (P : param)
    (fs : files L) (col_net col_sta col_lon col_lat : Z)
    (recs : list (string * (F * F) * string)) (c : catalog F L) :
  (catalog_consistent (catalog0 (F := F) (L := L)))
  /\ (parsed float col_net col_sta col_lon col_lat (station_lines fs) recs ->
      catalog_consistent c ->
      exists c', _meta float P fs col_net col_sta col_lon col_lat c = (c', OK tt) /\
        catalog_consistent c').
Proof.
  split.
  - intros k. simpl. rewrite lookup_empty, elem_of_nil.
    split; split; intros Hx; try contradiction; destruct Hx; discriminate.
  - intros Hp Hc. eexists. split; [apply meta_parsed, Hp|].
    intros k. destruct (stored_consistent float recs c Hc k) as [Hn Hl]. simpl.
    split; assumption.
Qed.

Lemma meta_consistent_witness :
  exists c' : catalog string Z,
    _meta Ex.float_text Ex.P0 Ex.twice 0 1 2 3 catalog0 = (c', OK tt) /\
    catalog_consistent c'.
Proof.
  destruct (meta_consistent Ex.float_text Ex.P0 Ex.twice 0 1 2 3
              [("A", ("1.0", "2.0"), "N1"); ("B", ("3.0", "4.0"), "N2");
               ("A", ("5.0", "6.0"), "N3")] (catalog0 (L := Z))) as [H0 Hstep].
  apply Hstep; [repeat constructor | exact H0].
Defined.

(** X12. A line of the station file that does not hold a station stops
    the load with its exception: the stations of the lines before it are
    in [ALL_STATION] and in [STA2NET], the lines after it are not read, and
    the receiver and source lists are left as they were. A line without a
    word, as a blank line is, raises [IndexError] whatever the columns. *)
Theorem meta_bad_line {F L : Type} (float : string -> result F) (P : param)
    (fs : files L) (col_net col_sta col_lon col_lat : Z)
    (good rest : list string) (bad : string)
    (recs : list (string * (F * F) * string)) (c : catalog F L) (e : exn) :
  (station_lines fs = good ++ bad :: rest ->
   parsed float col_net col_sta col_lon col_lat good recs ->
   parse_line float col_net col_sta col_lon col_lat bad = raise e ->
   exists c', _meta float P fs col_net col_sta col_lon col_lat c = (c', raise e) /\
     ALL_STATION c' = ALL_STATION c ++ (rec_key <$> recs) /\
     STA2NET c' = foldl (assign rec_key rec_net) (STA2NET c) recs /\
     RECEIVER_STATION c' = RECEIVER_STATION c /\
     RECEIVER_GROUP c' = RECEIVER_GROUP c /\
     SOURCE_STATION c' = SOURCE_STATION c)
  /\ (Py.split bad = [] ->
      parse_line float col_net col_sta col_lon col_lat bad =
        raise (IndexError "list index out of range")).
Proof.
  split.
  - intros Hl Hp Hbad. unfold _meta, cbind. rewrite Hl.
    destruct (meta_lines_failed float col_net col_sta col_lon col_lat good rest bad
                recs c e Hp Hbad) as (c' & -> & Hrest).
    exists c'. split; [reflexivity | exact Hrest].
  - intros Hs. unfold parse_line. rewrite Hs. unfold Py.getitem. simpl.
    destruct (col_sta <? 0) eqn:Hneg.
    + rewrite Z.add_0_r, Hneg. reflexivity.
    + rewrite Hneg. reflexivity.
Qed.

Lemma meta_bad_line_witness :
  station_lines Ex2.blank_line = ["N1 A 1.0 2.0"] ++ "" :: ["N2 B 3.0 4.0"] /\
  parsed Ex.float_text 0 1 2 3 ["N1 A 1.0 2.0"] [("A", ("1.0", "2.0"), "N1")] /\
  Py.split "" = [] /\
  exists c' : catalog string Z,
    _meta Ex.float_text Ex.P0 Ex2.blank_line 0 1 2 3 catalog0 =
      (c', raise (IndexError "list index out of range")) /\
    ALL_STATION c' = ["A"] /\ RECEIVER_STATION c' = [].
Proof.
  assert (parsed Ex.float_text 0 1 2 3 ["N1 A 1.0 2.0"] [("A", ("1.0", "2.0"), "N1")])
    as Hp by (repeat constructor).
  split; [reflexivity|]. split; [exact Hp|]. split; [reflexivity|].
  pose proof (meta_bad_line Ex.float_text Ex.P0 Ex2.blank_line 0 1 2 3
                ["N1 A 1.0 2.0"] ["N2 B 3.0 4.0"] ""
                [("A", ("1.0", "2.0"), "N1")] (catalog0 (L := Z))
                (IndexError "list index out of range")) as [Hstop Hblank].
  destruct (Hstop eq_refl Hp (Hblank eq_refl)) as (c' & Hm & HA & _ & HR & _).
  exists c'. split; [exact Hm|]. split; [exact HA | exact HR].
Defined.

(** X13. After a load into the module as written, two stations of the
    file are ordered by their first lines: [get_order] on the new
    [ALL_STATION] returns, and puts first the station whose first line
    comes first, however often either is named again later. *)
Theorem meta_then_get_order {F L : Type} (float : string -> result F) (P : param)
    (fs : files L) (col_net col_sta col_lon col_lat : Z)
    (recs : list (string * (F * F) * string)) (a b : string) (i j : nat) :
  parsed float col_net col_sta col_lon col_lat (station_lines fs) recs ->
  index_of (rec_key <$> recs) a i -> index_of (rec_key <$> recs) b j ->
  exists c' : catalog F L,
    _meta float P fs col_net col_sta col_lon col_lat catalog0 = (c', OK tt) /\
    get_order (ALL_STATION c') a b =
      OK (if bool_decide (i <= j)%nat then (a, b) else (b, a)).
Proof.
  intros Hp Hi Hj. eexists. split; [apply meta_parsed, Hp|].
  simpl. rewrite stored_ALL_STATION. simpl.
  apply get_order_indices; assumption.
Qed.

Lemma meta_then_get_order_witness :
  exists c' : catalog string Z,
    _meta Ex.float_text Ex.P0 Ex.twice 0 1 2 3 catalog0 = (c', OK tt) /\
    get_order (ALL_STATION c') "B" "A" = OK ("A", "B").
Proof.
  apply (meta_then_get_order Ex.float_text Ex.P0 Ex.twice 0 1 2 3
           [("A", ("1.0", "2.0"), "N1"); ("B", ("3.0", "4.0"), "N2");
            ("A", ("5.0", "6.0"), "N3")] "B" "A" 1 0).
  - repeat constructor.
  - split; [reflexivity|]. intros [|k] Hk; [discriminate | lia].
  - split; [reflexivity|]. intros k Hk. lia.
Defined.

(** ** The SAC header tables *)

Lemma assign_lookup_item {R V : Type} (kf : R -> string) (vf : R -> V)
    (recs : list R) (k : string) (v : V) :
  foldl (assign kf vf) ∅ recs !! k = Some v ->
  exists r, r ∈ recs /\ kf r = k /\ vf r = v.
Proof.
  intros Hk.
  assert (k ∈ kf <$> recs) as Hin.
  { destruct (proj1 (assign_is_Some kf vf recs ∅ k)) as [[x Hx]|Hin];
      [eauto | rewrite lookup_empty in Hx; discriminate | exact Hin]. }
  destruct (last_occurrence kf recs k Hin) as (i & r & Hi & <- & Hlast).
  pose proof (assign_last kf vf recs ∅ i r Hi Hlast) as Hv.
  rewrite Hv in Hk. injection Hk as <-.
  exists r. split; [apply list_elem_of_lookup; eauto | auto].
Qed.

Lemma assign_lookup_NoDup {R V : Type} (kf : R -> string) (vf : R -> V)
    (recs : list R) (r : R) :
  NoDup (kf <$> recs) -> r ∈ recs ->
  foldl (assign kf vf) ∅ recs !! kf r = Some (vf r).
Proof.
  intros Hnd [i Hi]%list_elem_of_lookup.
  apply (assign_last kf vf recs ∅ i r Hi).
  intros j r' Hij Hj Heq.
  assert (i = j); [|lia].
  apply (NoDup_lookup (kf <$> recs) i j (kf r) Hnd).
  - rewrite list_lookup_fmap, Hi. reflexivity.
  - rewrite list_lookup_fmap, Hj. simpl. congruence.
Qed.

(** X14. [KEY2SHD] is the inverse of [SHD2KEY]: the comprehension
    [{v: k for k, v in d.items()}] of a dict whose values are distinct maps
    [v] to [k] exactly when the dict maps [k] to [v]; the keys and the
    values of [SHD2KEY] are distinct. *)
Theorem header_tables_inverse (items : list (string * string)) (k v : string) :
  NoDup items.*1 -> NoDup items.*2 ->
  (dict_of_items items !! k = Some v <-> invert_items items !! v = Some k).
Proof.
  intros Hk Hv. unfold dict_of_items, invert_items. split; intros Hx.
  - apply assign_lookup_item in Hx as ([k' v'] & Hin & Hk' & Hv'). simpl in *.
    subst k' v'. apply (assign_lookup_NoDup snd fst items (k, v) Hv Hin).
  - apply assign_lookup_item in Hx as ([k' v'] & Hin & Hv' & Hk'). simpl in *.
    subst k' v'. apply (assign_lookup_NoDup fst snd items (k, v) Hk Hin).
Qed.

Lemma header_tables_inverse_witness :
  NoDup SHD2KEY_items.*1 /\ NoDup SHD2KEY_items.*2 /\
  (forall k v, SHD2KEY !! k = Some v <-> KEY2SHD !! v = Some k) /\
  SHD2KEY !! "user2" = Some "snr" /\ KEY2SHD !! "snr" = Some "user2".
Proof.
  assert (NoDup SHD2KEY_items.*1) as Hk by by_compute.
  assert (NoDup SHD2KEY_items.*2) as Hv by by_compute.
  split; [exact Hk|]. split; [exact Hv|]. split.
  - intros k v. exact (header_tables_inverse SHD2KEY_items k v Hk Hv).
  - assert (SHD2KEY !! "user2" = Some "snr") as Hs by (vm_compute; reflexivity).
    split; [exact Hs|].
    exact (proj1 (header_tables_inverse SHD2KEY_items "user2" "snr" Hk Hv) Hs).
Defined.

(** ** [_cp_fparam] *)

Lemma startswith_sep_app (base t t' : string) :
  PosixPath.startswith_sep (base +:+ "_" +:+ t) =
  PosixPath.startswith_sep (base +:+ "_" +:+ t').
Proof. destruct base; reflexivity. Qed.

Lemma copy_name_inj (dir fparam : string) (n n' : nat) :
  copy_name dir fparam n = copy_name dir fparam n' -> n = n'.
Proof.
  unfold copy_name, PosixPath.join. simpl. unfold PosixPath.join_step.
  rewrite (startswith_sep_app _ (pretty n) (pretty n')).
  set (base := PosixPath.basename fparam).
  destruct (PosixPath.startswith_sep _);
    [|destruct (bool_decide (dir = "") || PosixPath.endswith_sep dir)];
    intros Heq; repeat (apply String.app_inj in Heq);
    apply (inj pretty); exact Heq.
Qed.

Lemma first_index (Q : nat -> Prop) `{!forall n, Decision (Q n)} (b : nat) :
  (forall k, (k < b)%nat -> ~ Q k) \/
  exists n, (n < b)%nat /\ Q n /\ forall k, (k < n)%nat -> ~ Q k.
Proof.
  induction b as [|b [Hnone|(n & Hn & HQ & Hleast)]].
  - left. intros k Hk. lia.
  - destruct (decide (Q b)) as [Hb|Hb].
    + right. exists b. split; [lia | auto].
    + left. intros k Hk. destruct (decide (k = b)) as [->|Hne]; [exact Hb|].
      apply Hnone. lia.
  - right. exists n. split; [lia | auto].
Qed.

Lemma free_index (f : nat -> string) (fs : gset string) :
  (forall n n', f n = f n' -> n = n') ->
  exists n, (n <= size fs)%nat /\ (f n ∉ fs) /\ forall k, (k < n)%nat -> f k ∈ fs.
Proof.
  intros Hinj.
  destruct (first_index (fun n => f n ∉ fs) (S (size fs)))
    as [Hnone|(n & Hn & Hout & Hleast)].
  - exfalso.
    assert (list_to_set (f <$> seq 0 (S (size fs))) ⊆ fs) as Hsub.
    { intros x Hx. apply elem_of_list_to_set, list_elem_of_fmap in Hx as (n & -> & Hn).
      apply elem_of_seq in Hn.
      destruct (decide (f n ∈ fs)) as [Hin|Hout]; [exact Hin|].
      exfalso. apply (Hnone n); [lia | exact Hout]. }
    apply subseteq_size in Hsub. rewrite size_list_to_set in Hsub.
    + rewrite length_fmap, length_seq in Hsub. lia.
    + apply NoDup_fmap_2_strong; [|apply NoDup_seq].
      intros n n' _ _. apply Hinj.
  - exists n. split; [lia|]. split; [exact Hout|].
    intros k Hk. destruct (decide (f k ∈ fs)) as [Hin|Hno]; [exact Hin|].
    exfalso. apply (Hleast k Hk Hno).
Qed.

Lemma cp_loop_finds (fs : gset string) (dir fparam : string) (n0 : nat) :
  copy_name dir fparam n0 ∉ fs ->
  forall fuel n, (n <= n0)%nat -> (n0 - n < fuel)%nat ->
  (forall k, (n <= k < n0)%nat -> copy_name dir fparam k ∈ fs) ->
  cp_loop fuel fs dir fparam n = Some (n0, copy_name dir fparam n0).
Proof.
  intros Hfree. induction fuel as [|fuel IH]; intros n Hle Hfuel Hbusy; [lia|].
  simpl. unfold path_exists. destruct (decide (n = n0)) as [->|Hne].
  - rewrite bool_decide_eq_false_2 by exact Hfree. reflexivity.
  - rewrite bool_decide_eq_true_2 by (apply Hbusy; lia).
    apply IH; [lia | lia |]. intros k Hk. apply Hbusy. lia.
Qed.

(** X15. [_cp_fparam] ends on every finite file system (its loop needs no
    more rounds than there are paths, plus two): it makes the meta
    directory, then copies the parameter file to [basename_n] in it, for
    the least [n] whose name is free; the copy replaces no path that
    existed, and every name with a smaller number is taken. *)
Theorem cp_fparam_spec (fuel : nat) (P : param) (fparam : string) (fs : gset string) :
  (size fs + 1 < fuel)%nat ->
  exists n,
    (n <= size fs + 1)%nat /\
    _cp_fparam fuel P fparam fs =
      Some ([MkdirOp (PosixPath.join (DIROUT P) [dir_meta (p_dir P)]);
             CopyOp fparam
               (copy_name (PosixPath.join (DIROUT P) [dir_meta (p_dir P)]) fparam n)],
            {[copy_name (PosixPath.join (DIROUT P) [dir_meta (p_dir P)]) fparam n]}
              ∪ ({[PosixPath.join (DIROUT P) [dir_meta (p_dir P)]]} ∪ fs)) /\
    (copy_name (PosixPath.join (DIROUT P) [dir_meta (p_dir P)]) fparam n ∉ fs) /\
    (forall k, (k < n)%nat ->
       copy_name (PosixPath.join (DIROUT P) [dir_meta (p_dir P)]) fparam k
         ∈ ({[PosixPath.join (DIROUT P) [dir_meta (p_dir P)]]} ∪ fs : gset string)).
Proof.
  intros Hfuel. set (dir := PosixPath.join (DIROUT P) [dir_meta (p_dir P)]).
  set (fs1 := ({[dir]} ∪ fs : gset string)).
  assert (size fs1 <= size fs + 1)%nat as Hsize.
  { unfold fs1. rewrite size_union_alt, size_singleton.
    assert (size (fs ∖ {[dir]}) <= size fs)%nat; [|lia].
    apply subseteq_size. intros x Hx. apply elem_of_difference in Hx as [Hx _].
    exact Hx. }
  destruct (free_index (copy_name dir fparam) fs1 (copy_name_inj dir fparam))
    as (n & Hn & Hfree & Hbusy).
  exists n. split; [lia|]. split; [|split].
  - unfold _cp_fparam. fold dir. fold fs1.
    rewrite (cp_loop_finds fs1 dir fparam n Hfree fuel 0%nat);
      [reflexivity | lia | lia |].
    intros k Hk. apply Hbusy. lia.
  - intros Hin. apply Hfree. unfold fs1. apply elem_of_union. right. exact Hin.
  - exact Hbusy.
Qed.

Lemma cp_fparam_spec_witness :
  (size Ex2.two_copies + 1 < 5)%nat /\
  exists n,
    _cp_fparam 5 Ex.P0 "./param.yml" Ex2.two_copies =
      Some ([MkdirOp "proj/out/meta";
             CopyOp "./param.yml" (copy_name "proj/out/meta" "./param.yml" n)],
            {[copy_name "proj/out/meta" "./param.yml" n]}
              ∪ ({["proj/out/meta"]} ∪ Ex2.two_copies)) /\
    (copy_name "proj/out/meta" "./param.yml" n ∉ Ex2.two_copies).
Proof.
  assert (size Ex2.two_copies + 1 < 5)%nat as Hfuel by (vm_compute; lia).
  split; [exact Hfuel|].
  destruct (cp_fparam_spec 5 Ex.P0 "./param.yml" Ex2.two_copies Hfuel)
    as (n & _ & Hrun & Hfree & _).
  exists n. split; [exact Hrun | exact Hfree].
Defined.

Example cp_fparam_ex :
  fst <$> _cp_fparam 5 Ex.P0 "./param.yml" Ex2.two_copies =
    Some [MkdirOp "proj/out/meta";
          CopyOp "./param.yml" "proj/out/meta/param.yml_2"].
Proof. vm_compute. reflexivity. Qed.

(** ** The I2 path, taken apart again *)

Lemma has_char_app (c : ascii) (a b : string) :
  has_char c (a +:+ b) = has_char c a || has_char c b.
Proof.
  induction a as [|x a IH]; [reflexivity|].
  change (has_char c (String x (a +:+ b)) = has_char c (String x a) || has_char c b).
  simpl. rewrite IH, orb_assoc. reflexivity.
Qed.

Lemma no_sep_ends (s : string) :
  has_char PosixPath.sep s = false ->
  PosixPath.startswith_sep s = false /\ PosixPath.endswith_sep s = false.
Proof.
  intros Hs. split.
  - destruct s as [|c s]; [reflexivity|]. simpl in *.
    apply orb_false_iff in Hs as [Hc _]. exact Hc.
  - induction s as [|c s IH]; [reflexivity|]. simpl in *.
    apply orb_false_iff in Hs as [Hc Hs]. destruct s; [exact Hc | apply IH, Hs].
Qed.

Lemma rfind_go_no_sep (s : string) (i last : Z) :
  has_char PosixPath.sep s = false -> PosixPath.rfind_go s i last = last.
Proof.
  revert i last. induction s as [|c s IH]; intros i last Hs; [reflexivity|].
  simpl in *. apply orb_false_iff in Hs as [Hc Hs]. rewrite Hc. apply IH, Hs.
Qed.

Lemma rfind_go_last_sep (a b : string) (i last : Z) :
  has_char PosixPath.sep b = false ->
  PosixPath.rfind_go (a +:+ String PosixPath.sep b) i last =
    i + Z.of_nat (String.length a).
Proof.
  intros Hb. revert i last. induction a as [|c a IH]; intros i last.
  - change (PosixPath.rfind_go (String PosixPath.sep b) i last = i + 0).
    simpl. rewrite (rfind_go_no_sep b _ _ Hb). lia.
  - change (PosixPath.rfind_go (String c (a +:+ String PosixPath.sep b)) i last =
            i + Z.of_nat (S (String.length a))).
    simpl PosixPath.rfind_go. rewrite IH. lia.
Qed.

Lemma drop_past (a b : string) (c : ascii) :
  PosixPath.drop (S (String.length a)) (a +:+ String c b) = b.
Proof.
  induction a as [|x a IH]; [reflexivity|].
  change (PosixPath.drop (S (S (String.length a))) (String x (a +:+ String c b)) = b).
  exact IH.
Qed.

Lemma take_past (a b : string) (c : ascii) :
  PosixPath.take (S (String.length a)) (a +:+ String c b) = a +:+ String c "".
Proof.
  induction a as [|x a IH]; [reflexivity|].
  change (PosixPath.take (S (S (String.length a))) (String x (a +:+ String c b)) =
          String x (a +:+ String c "")).
  simpl. f_equal. exact IH.
Qed.

Lemma basename_last (a b : string) :
  has_char PosixPath.sep b = false ->
  PosixPath.basename (a +:+ String PosixPath.sep b) = b.
Proof.
  intros Hb. unfold PosixPath.basename, PosixPath.rfind_sep.
  rewrite (rfind_go_last_sep a b 0 (-1) Hb).
  replace (Z.to_nat (0 + Z.of_nat (String.length a) + 1)) with (S (String.length a))
    by lia.
  apply drop_past.
Qed.

Lemma basename_no_sep (s : string) :
  has_char PosixPath.sep s = false -> PosixPath.basename s = s.
Proof.
  intros Hs. unfold PosixPath.basename, PosixPath.rfind_sep.
  rewrite (rfind_go_no_sep s 0 (-1) Hs). reflexivity.
Qed.

Lemma rstrip_one (a : string) :
  a <> "" -> PosixPath.endswith_sep a = false ->
  PosixPath.rstrip_sep (a +:+ String PosixPath.sep "") = a /\
  PosixPath.all_sep (a +:+ String PosixPath.sep "") = false.
Proof.
  unfold PosixPath.sep.
  induction a as [|c a IH]; intros Hne Hend; [contradiction|].
  destruct a as [|c' a].
  - simpl in Hend. unfold PosixPath.sep in Hend.
    change (PosixPath.rstrip_sep (String c "/") = String c "" /\
            PosixPath.all_sep (String c "/") = false).
    simpl. unfold PosixPath.sep. rewrite Hend. split; reflexivity.
  - destruct IH as [IHs IHa]; [discriminate | exact Hend |].
    change (PosixPath.rstrip_sep (String c (String c' a +:+ "/")) = String c (String c' a) /\
            PosixPath.all_sep (String c (String c' a +:+ "/")) = false).
    cbn [PosixPath.rstrip_sep PosixPath.all_sep].
    rewrite IHs, IHa, andb_false_r. split; reflexivity.
Qed.

Lemma dirname_last (a b : string) :
  has_char PosixPath.sep b = false ->
  a <> "" -> PosixPath.endswith_sep a = false ->
  PosixPath.dirname (a +:+ String PosixPath.sep b) = a.
Proof.
  intros Hb Hne Hend. unfold PosixPath.dirname, PosixPath.rfind_sep.
  rewrite (rfind_go_last_sep a b 0 (-1) Hb).
  replace (Z.to_nat (0 + Z.of_nat (String.length a) + 1)) with (S (String.length a))
    by lia.
  rewrite take_past. destruct (rstrip_one a Hne Hend) as [Hs Ha].
  rewrite Ha, Hs.
  rewrite bool_decide_eq_false_2; [reflexivity|]. destruct a; discriminate.
Qed.

Lemma str_length_app (a b : string) :
  String.length (a +:+ b) = (String.length a + String.length b)%nat.
Proof.
  induction a as [|x a IH]; [reflexivity|].
  change (S (String.length (a +:+ b)) = S (String.length a + String.length b)).
  rewrite IH. reflexivity.
Qed.

Lemma str_app_inj_r (a a' s : string) : a +:+ s = a' +:+ s -> a = a'.
Proof.
  revert a'. induction a as [|x a IH]; intros [|x' a'] Heq.
  - reflexivity.
  - exfalso. apply (f_equal String.length) in Heq.
    change (String.length s = S (String.length (a' +:+ s))) in Heq.
    rewrite str_length_app in Heq. lia.
  - exfalso. apply (f_equal String.length) in Heq.
    change (S (String.length (a +:+ s)) = String.length s) in Heq.
    rewrite str_length_app in Heq. lia.
  - injection Heq as -> Heq. rewrite (IH a' Heq). reflexivity.
Qed.

Lemma endswith_sep_split (q : string) :
  PosixPath.endswith_sep q = true -> exists q', q = q' +:+ String PosixPath.sep "".
Proof.
  induction q as [|c q IH]; [discriminate|]. destruct q as [|c' q].
  - simpl. intros Hc. apply bool_decide_eq_true_1 in Hc. subst c. exists "". reflexivity.
  - intros Hq. destruct (IH Hq) as [q' Hq']. exists (String c q').
    change (String c (String c' q) = String c (q' +:+ String PosixPath.sep "")).
    rewrite Hq'. reflexivity.
Qed.

(** A file [file] in a directory [src] under [d], both without [/]. *)
Lemma two_level_path (d src file : string) :
  src <> "" -> has_char PosixPath.sep src = false ->
  has_char PosixPath.sep file = false ->
  PosixPath.basename (PosixPath.join d [src; file]) = file /\
  PosixPath.basename (PosixPath.dirname (PosixPath.join d [src; file])) = src.
Proof.
  intros Hne Hsrc Hfile.
  destruct (no_sep_ends src Hsrc) as [Hss Hse].
  destruct (no_sep_ends file Hfile) as [Hfs _].
  assert (exists q, (q = "" \/ exists q', q = q' +:+ String PosixPath.sep "") /\
            PosixPath.join d [src] = q +:+ src) as (q & Hq & Hd).
  { unfold PosixPath.join. simpl. unfold PosixPath.join_step. rewrite Hss.
    destruct (bool_decide_reflect (d = "")) as [->|Hdne]; simpl.
    - exists "". auto.
    - destruct (PosixPath.endswith_sep d) eqn:Hde.
      + exists d. split; [right; apply endswith_sep_split, Hde | reflexivity].
      + exists (d +:+ String PosixPath.sep ""). split; [right; eauto|].
        rewrite str_app_assoc. reflexivity. }
  assert (PosixPath.join d [src; file] = (q +:+ src) +:+ String PosixPath.sep file)
    as Hpath.
  { change (PosixPath.join d [src; file])
      with (PosixPath.join_step (PosixPath.join d [src]) file).
    rewrite Hd. unfold PosixPath.join_step. rewrite Hfs.
    rewrite (endswith_sep_app q src Hne), Hse.
    rewrite bool_decide_eq_false_2; [reflexivity|].
    destruct q; [exact Hne | discriminate]. }
  rewrite Hpath. split; [apply basename_last, Hfile|].
  rewrite dirname_last; [| exact Hfile | destruct q; [exact Hne | discriminate]
                         | rewrite (endswith_sep_app q src Hne); exact Hse].
  destruct Hq as [->|[q' ->]].
  - apply basename_no_sep, Hsrc.
  - rewrite str_app_assoc. apply basename_last, Hsrc.
Qed.

Lemma I2_file_no_sep (src rec : string) :
  has_char PosixPath.sep src = false -> has_char PosixPath.sep rec = false ->
  has_char PosixPath.sep ("COR_" +:+ src +:+ "_" +:+ rec +:+ ".SAC") = false.
Proof. intros Hs Hr. rewrite !has_char_app, Hs, Hr. reflexivity. Qed.

Lemma get_order_again {A : Type} `{EqDecision A} `{Py.Repr A}
    (lst : list A) (a b src rec : A) :
  get_order lst a b = OK (src, rec) ->
  get_order lst src rec = OK (src, rec) /\ get_order lst rec src = OK (src, rec).
Proof.
  intros Ho. destruct (get_order_OK_inv _ _ _ _ Ho) as (i & j & Hi & Hj & Hp).
  assert (exists i' j', index_of lst src i' /\ index_of lst rec j' /\ (i' <= j')%nat)
    as (i' & j' & Hi' & Hj' & Hle).
  { case_bool_decide as Hle; injection Hp as -> ->.
    - exists i, j. auto.
    - exists j, i. split; [exact Hj|]. split; [exact Hi|]. lia. }
  assert (get_order lst src rec = OK (src, rec)) as Hsr
    by (apply (get_order_first_iff lst src rec i' j'); assumption).
  split; [exact Hsr|]. rewrite <- Hsr. apply get_order_comm.
  - apply list_elem_of_lookup. exists j'. apply Hj'.
  - apply list_elem_of_lookup. exists i'. apply Hi'.
Qed.

Lemma I2_path_parts (P : param) (src rec : string) :
  src <> "" -> has_char PosixPath.sep src = false ->
  has_char PosixPath.sep rec = false ->
  PosixPath.basename (I2_path P src rec) =
    "COR_" +:+ src +:+ "_" +:+ rec +:+ ".SAC" /\
  PosixPath.basename (PosixPath.dirname (I2_path P src rec)) = src.
Proof.
  intros Hne Hs Hr. unfold I2_path.
  change (PosixPath.join (dir_project (p_dir P))
            [dir_I2 (p_dir P); src; "COR_" +:+ src +:+ "_" +:+ rec +:+ ".SAC"])
    with (PosixPath.join (PosixPath.join (dir_project (p_dir P)) [dir_I2 (p_dir P)])
            [src; "COR_" +:+ src +:+ "_" +:+ rec +:+ ".SAC"]).
  apply two_level_path; [exact Hne | exact Hs | apply I2_file_no_sep; assumption].
Qed.

Lemma get_fnm_I2_path (P : param) (ALL_STATION : list string) (a b src rec : string)
    (sta3 lags pre : option string) :
  get_order (Some <$> ALL_STATION) (Some a) (Some b) = OK (Some src, Some rec) ->
  get_fnm P ALL_STATION "I2" (Some a) (Some b) sta3 lags pre None =
    ([], OK (OnePath (I2_path P src rec))).
Proof.
  intros Ho. rewrite pair_kind_dispatch by by_compute. simpl. rewrite Ho. reflexivity.
Qed.

(** X16. The I2 path of a pair leads back to the pair: when the names of
    the canonical pair [(src, rec)] hold no [/] and [src] is not empty, the
    path [get_fnm] returns for kind [I2] has the base name
    [COR_src_rec.SAC] and lies in a directory named [src]; so [get_fnm]
    for kind [I2_LAG_RAW], given [rec] and that path, returns the lag
    files named after that base name under [join(DIROUT, src)]. *)
Theorem I2_path_round_trip (P : param) (ALL_STATION : list string)
    (a b src rec : string) (sta2 sta3 lags pre : option string) :
  get_order (Some <$> ALL_STATION) (Some a) (Some b) = OK (Some src, Some rec) ->
  src <> "" -> has_char "/" src = false -> has_char "/" rec = false ->
  exists path,
    get_fnm P ALL_STATION "I2" (Some a) (Some b) sta3 lags pre None =
      ([], OK (OnePath path)) /\
    PosixPath.basename path = "COR_" +:+ src +:+ "_" +:+ rec +:+ ".SAC" /\
    PosixPath.basename (PosixPath.dirname path) = src /\
    get_fnm P ALL_STATION "I2_LAG_RAW" (Some rec) sta2 sta3 lags pre (Some path) =
      (if write_lag (p_write P)
       then [Mkdir (PosixPath.join (DIROUT P) [src])] else [],
       OK (PathList
             (if bool_decide (nlag (p_interferometry P) = 2)
              then [PosixPath.join (PosixPath.join (DIROUT P) [src])
                      ["P_" +:+ "COR_" +:+ src +:+ "_" +:+ rec +:+ ".SAC"];
                    PosixPath.join (PosixPath.join (DIROUT P) [src])
                      ["N_" +:+ "COR_" +:+ src +:+ "_" +:+ rec +:+ ".SAC"]]
              else [PosixPath.join (PosixPath.join (DIROUT P) [src])
                      ["S_" +:+ "COR_" +:+ src +:+ "_" +:+ rec +:+ ".SAC"]]))).
Proof.
  intros Ho Hne Hs Hr.
  destruct (I2_path_parts P src rec Hne Hs Hr) as [Hbase Hdir].
  exists (I2_path P src rec).
  split; [apply get_fnm_I2_path, Ho|]. split; [exact Hbase|]. split; [exact Hdir|].
  generalize dependent (I2_path P src rec). intros path Hbase Hdir.
  rewrite pair_kind_dispatch by by_compute. cbv beta iota zeta. rewrite Hdir.
  destruct (get_order_again _ _ _ _ _ Ho) as [_ ->].
  change (Py.upper "I2_LAG_RAW") with "I2_LAG_RAW".
  change (PosixPath.basename <$> Some path) with (Some (PosixPath.basename path)).
  rewrite Hbase. unfold fnm_of_pair. simpl.
  destruct (bool_decide (nlag (p_interferometry P) = 2)); reflexivity.
Qed.

Lemma I2_path_round_trip_witness :
  get_order (Some <$> Ex.stations) (Some "STA3") (Some "STA1") =
    OK (Some "STA1", Some "STA3") /\
  exists path,
    get_fnm Ex.P1 Ex.stations "I2" (Some "STA3") (Some "STA1") None None None None =
      ([], OK (OnePath path)) /\
    PosixPath.basename (PosixPath.dirname path) = "STA1" /\
    get_fnm Ex.P1 Ex.stations "I2_LAG_RAW" (Some "STA3") None None None None
      (Some path) = ([], OK (PathList ["proj/out/STA1/S_COR_STA1_STA3.SAC"])).
Proof.
  split; [reflexivity|].
  destruct (I2_path_round_trip Ex.P1 Ex.stations "STA3" "STA1" "STA1" "STA3"
              None None None None)
    as (path & Hp & _ & Hd & Hl); [reflexivity | discriminate | reflexivity..|].
  exists path. split; [exact Hp|]. split; [exact Hd | exact Hl].
Defined.

(** X17. Two pairs of stations share an I2 file only when they are the
    same pair: for canonical pairs whose names hold no [/] and whose first
    names are not empty, equal paths for kind [I2] mean equal first
    stations and equal second stations. *)
Theorem I2_path_inj (P : param) (ALL_STATION : list string)
    (a b a' b' src rec src' rec' : string) :
  get_order (Some <$> ALL_STATION) (Some a) (Some b) = OK (Some src, Some rec) ->
  get_order (Some <$> ALL_STATION) (Some a') (Some b') = OK (Some src', Some rec') ->
  src <> "" -> has_char "/" src = false -> has_char "/" rec = false ->
  src' <> "" -> has_char "/" src' = false -> has_char "/" rec' = false ->
  get_fnm P ALL_STATION "I2" (Some a) (Some b) None None None None =
  get_fnm P ALL_STATION "I2" (Some a') (Some b') None None None None ->
  src = src' /\ rec = rec'.
Proof.
  intros Ho Ho' Hne Hs Hr Hne' Hs' Hr'.
  rewrite (get_fnm_I2_path P ALL_STATION a b src rec None None None Ho).
  rewrite (get_fnm_I2_path P ALL_STATION a' b' src' rec' None None None Ho').
  intros [= Hpath].
  destruct (I2_path_parts P src rec Hne Hs Hr) as [Hbase Hdir].
  destruct (I2_path_parts P src' rec' Hne' Hs' Hr') as [Hbase' Hdir'].
  rewrite Hpath in Hbase, Hdir.
  assert (src = src') as -> by congruence. split; [reflexivity|].
  rewrite Hbase' in Hbase.
  repeat (apply String.app_inj in Hbase).
  symmetry. exact (str_app_inj_r _ _ _ Hbase).
Qed.

Lemma I2_path_inj_witness :
  get_fnm Ex.P0 Ex.stations "I2" (Some "STA3") (Some "STA1") None None None None =
  get_fnm Ex.P0 Ex.stations "I2" (Some "STA1") (Some "STA3") None None None None /\
  "STA1" = "STA1".
Proof.
  assert (get_fnm Ex.P0 Ex.stations "I2" (Some "STA3") (Some "STA1")
            None None None None =
          get_fnm Ex.P0 Ex.stations "I2" (Some "STA1") (Some "STA3")
            None None None None) as Heq by reflexivity.
  split; [exact Heq|].
  apply (I2_path_inj Ex.P0 Ex.stations "STA3" "STA1" "STA1" "STA3"
           "STA1" "STA3" "STA1" "STA3");
    try reflexivity; try discriminate; exact Heq.
Defined.

(** ** Which parameters pass the normalisation and [_check] *)

Lemma spellings_disjoint (x : string) :
  (x ∈ coda_spellings -> x ∈ direct_spellings -> False) /\
  (x ∈ conv_spellings -> x ∈ corr_spellings -> False).
Proof.
  unfold coda_spellings, direct_spellings, conv_spellings, corr_spellings.
  rewrite !elem_of_cons, !elem_of_nil. split; intuition congruence.
Qed.

Lemma check_lag_OK_iff (P : param) :
  check_lag P = OK tt <->
  ~ (nlag (p_interferometry P) = 4 /\ flip_nlag (p_interferometry P) = false).
Proof.
  unfold check_lag. case_bool_decide as Hn;
    destruct (flip_nlag (p_interferometry P)); simpl;
    split; try discriminate; try reflexivity; try tauto;
    intros _ [Hx Hf]; first [discriminate Hf | contradiction].
Qed.

(** X18. The parameters pass the normalisation and then [_check] exactly
    when the wave type is a spelling of coda and the operator a spelling of
    correlation, or the wave type is a spelling of the direct wave, the
    operator a spelling of convolution or of correlation and [Welch] is
    off; and, in both cases, [nlag] is not 4 or [flip_nlag] is on. *)
Theorem parameters_accepted (P : param) :
  let w := Py.lower (wavetype (p_misc P)) in
  let o := Py.lower (operator (p_interferometry P)) in
  (exists fl ev, normalize P = OK fl /\ _check P fl = (ev, OK tt))
  <->
  ((w ∈ coda_spellings /\ o ∈ corr_spellings) \/
   (w ∈ direct_spellings /\ (o ∈ conv_spellings \/ o ∈ corr_spellings) /\
    Welch (p_interferometry P) = false))
  /\ ~ (nlag (p_interferometry P) = 4 /\ flip_nlag (p_interferometry P) = false).
Proof.
  intros w o. subst w o.
  destruct (spellings_disjoint (Py.lower (wavetype (p_misc P)))) as [Hw _].
  destruct (spellings_disjoint (Py.lower (operator (p_interferometry P)))) as [_ Ho].
  rewrite <- check_lag_OK_iff. split.
  - intros (fl & ev & Hn & Hc). apply normalize_OK_iff in Hn as (Hwv & Hop & ->).
    revert Hc. unfold _check. simpl.
    destruct (bool_decide_reflect
                (Py.lower (wavetype (p_misc P)) ∈ coda_spellings)) as [Hc|Hc]; simpl.
    + destruct (bool_decide_reflect
                  (Py.lower (operator (p_interferometry P)) ∈ conv_spellings))
        as [Hv|Hv]; simpl; [discriminate|].
      intros [= _ Hlag]. split; [left; tauto | exact Hlag].
    + destruct (Welch (p_interferometry P)); [discriminate|].
      intros [= _ Hlag]. split; [right; tauto | exact Hlag].
  - intros [Hsp Hlag].
    destruct Hsp as [[Hc Hr]|(Hd & Hop & Hwe)]; eexists _, _;
      (split; [apply normalize_OK_iff; split; [tauto|]; split; [tauto | reflexivity]|]);
      unfold _check; simpl; rewrite Hlag.
    + rewrite (bool_decide_eq_true_2 _ Hc).
      rewrite (bool_decide_eq_false_2 (_ ∈ conv_spellings)) by (intros Hv; tauto).
      reflexivity.
    + rewrite (bool_decide_eq_false_2 (_ ∈ coda_spellings)) by (intros Hc; tauto).
      simpl. rewrite Hwe. reflexivity.
Qed.

Lemma parameters_accepted_witness :
  (exists fl ev,
     normalize (Ex.with_options "Coda" "CORR" 4 true true true None) = OK fl /\
     _check (Ex.with_options "Coda" "CORR" 4 true true true None) fl = (ev, OK tt))
  /\ ~ (exists fl ev,
          normalize (Ex.with_options "Coda" "conv" 2 true false false None) = OK fl /\
          _check (Ex.with_options "Coda" "conv" 2 true false false None) fl = (ev, OK tt)).
Proof.
  split.
  - apply (proj2 (parameters_accepted (Ex.with_options "Coda" "CORR" 4 true true true None))).
    split; [left; split; by_compute|]. intros [_ Hf]. discriminate Hf.
  - intros Hacc.
    apply (proj1 (parameters_accepted
                    (Ex.with_options "Coda" "conv" 2 true false false None))) in Hacc.
    destruct Hacc as [[[_ Hr]|[Hd _]] _]; revert Hr || revert Hd;
      apply (bool_decide_unpack (_ ∉ _)); vm_compute; exact I.
Defined.
